(** * The CMake preset generator of AOCL-DA, embedded and verified

    Source: [cmake/presets/preset_generator.py]; the data validation of
    [python_interface/python_package/aoclda/_internal_utils.py] follows in
    the module [InternalUtils].

    The embedding keeps the shape of the Python code: strings are
    [String.string], the option registry [PRESET_OPTIONS] and every
    dictionary are insertion-ordered association lists (Python dictionaries
    iterate in insertion order, and the generator relies on it), raised
    exceptions and [sys.exit] are an explicit outcome type, and the files
    written by the batch driver live in an explicit [world]. *)

From Stdlib Require Import List String Ascii ZArith Bool Lia Permutation.
Import ListNotations.
Open Scope string_scope.
Open Scope list_scope.

(** ** Python strings: [str.split] and [str.join] *)

Module PyStr.

(** [s.split(sep)] for a one-character separator.  The result is never the
    empty list: [str.split] of the empty string is the list holding the empty
    string. *)
Fixpoint split (sep : ascii) (s : string) : list string :=
  match s with
  | EmptyString => [EmptyString]
  | String c rest =>
      if Ascii.eqb c sep then EmptyString :: split sep rest
      else match split sep rest with
           | [] => [String c EmptyString]
           | w :: ws => String c w :: ws
           end
  end.

(** [sep.join(parts)]. *)
Definition join (sep : string) (parts : list string) : string :=
  String.concat sep parts.

(** [c in s] for a character. *)
Fixpoint has_char (c : ascii) (s : string) : bool :=
  match s with
  | EmptyString => false
  | String d rest => Ascii.eqb d c || has_char c rest
  end.

(** [x in xs] for a list of strings. *)
Definition mem (x : string) (xs : list string) : bool :=
  existsb (String.eqb x) xs.

(** Truthiness of a string: the empty string is falsy. *)
Definition truthy (s : string) : bool :=
  match s with
  | EmptyString => false
  | String _ _ => true
  end.

End PyStr.

(** ** Exceptions and process exit *)

(** The [ValueError]s of [parse_preset_name], one constructor per message. *)
Inductive value_error : Type :=
| EmptyName                                              (* "Empty preset name" *)
| AmbiguousToken (part : string) (categories : list string)
                                  (* "Part '..' matches multiple categories: .." *)
| DuplicateCategory (category old new : string)
                        (* "Multiple values for category '..' found: .. and .." *)
| UnrecognizedToken (part : string)    (* "Part '..' does not match any category" *)
| IncompatiblePlatformCompiler
            (* "Compiler options (gcc, clang) cannot be used with Windows platform" *)
| StaticPythonConflict.      (* "Python bindings (python) require shared libraries.." *)

(** Instances of Python's [Exception] class that the generator can meet. *)
Inductive exn : Type :=
| ValueError (e : value_error)
| KeyError (key : string)
| OSError (msg : string).

(** How a call ends: it returns, it raises an [Exception], or it raises
    [SystemExit] through [sys.exit(code)].  [SystemExit] derives from
    [BaseException], not from [Exception], so [except Exception] does not
    catch it. *)
Inductive outcome (A : Type) : Type :=
| Returned (a : A)
| Raised (e : exn)
| Exited (code : Z).

Arguments Returned {A} a.
Arguments Raised {A} e.
Arguments Exited {A} code.

Definition bind {A B : Type} (m : outcome A) (k : A -> outcome B) : outcome B :=
  match m with
  | Returned a => k a
  | Raised e => Raised e
  | Exited code => Exited code
  end.

Notation "x <- m ;; k" := (bind m (fun x => k))
  (at level 61, m at next level, right associativity).

(** ** Dictionaries with string keys, in insertion order *)

Definition dict : Type := list (string * string).

Fixpoint dict_get (d : dict) (k : string) : option string :=
  match d with
  | [] => None
  | (k', v) :: rest => if k' =? k then Some v else dict_get rest k
  end.

(** [d[k] = v]: an existing key keeps its position, a new key goes last. *)
Fixpoint dict_set (d : dict) (k v : string) : dict :=
  match d with
  | [] => [(k, v)]
  | (k', v') :: rest =>
      if k' =? k then (k', v) :: rest else (k', v') :: dict_set rest k v
  end.

(** The expression [d[k]]: raises [KeyError] on a missing key. *)
Definition getitem (d : dict) (k : string) : outcome string :=
  match dict_get d k with
  | Some v => Returned v
  | None => Raised (KeyError k)
  end.

(** A dictionary display or comprehension: entries are stored left to right,
    so a repeated key keeps its first position and its last value. *)
Definition dict_of (entries : list (string * string)) : dict :=
  fold_left (fun d kv => dict_set d (fst kv) (snd kv)) entries [].

Definition dict_keys (d : dict) : list string := map fst d.
Definition dict_items (d : dict) : list (string * string) := d.

(** ** The option registry *)

Definition PRESET_OPTIONS : list (string * (list string * string * string)) :=
  [ ("platform", (["linux"; "win"], "Platform options (required first element)", ""));
    ("generator", (["make"; "ninja"; "msvc"], "Generator options", ""));
    ("compiler", (["gcc"; "clang"], "Compiler options", "for Linux only"));
    ("threading", (["st"; "mt"], "Threading options",
                   "st (single-threaded), mt (multi-threaded)"));
    ("int_size", (["lp64"; "ilp64"], "Integer size options", ""));
    ("lib_type", (["static"; "shared"], "Library type options", ""));
    ("build_python", (["python"], "Python Bindings", ""));
    ("arch", (["native"; "dynamic"; "znver2"; "znver3"; "znver4"; "znver5"],
              "Architecture options", ""));
    ("build_type", (["release"; "debug"; "relwithdebinfo"], "Build type options", ""));
    ("sanitizer", (["asan"], "Address Sanitizer", ""));
    ("mem_sanitizer", (["memsan"], "Memory Sanitizer", ""));
    ("code_coverage", (["coverage"], "Code Coverage", ""));
    ("valgrind", (["valgrind"], "Valgrind Support", ""));
    ("documentation", (["doc"], "Documentation", ""));
    ("libmem", (["libmem"], "Memory Library", "")) ].

(** [for category in PRESET_OPTIONS]: the keys, in declaration order. *)
Definition categories : list string := map fst PRESET_OPTIONS.

(** The legal tokens of a category (none for an unknown name). *)
Fixpoint options_in (registry : list (string * (list string * string * string)))
         (category : string) : list string :=
  match registry with
  | [] => []
  | (c, (options, _, _)) :: rest =>
      if c =? category then options else options_in rest category
  end.

Definition options_of (category : string) : list string :=
  options_in PRESET_OPTIONS category.

(** ** Directory names *)

(** The loop of [generate_build_dir_name], [parts] being the list built so
    far. *)
Fixpoint build_dir_parts (cats : list string) (components : dict)
         (parts : list string) : outcome (list string) :=
  match cats with
  | [] => Returned parts
  | category :: rest =>
      v <- getitem components category ;;
      if negb (v =? "empty") then
        if category =? "generator" then
          platform <- getitem components "platform" ;;
          if platform =? "win" then build_dir_parts rest components parts
          else build_dir_parts rest components (parts ++ [v])
        else build_dir_parts rest components (parts ++ [v])
      else build_dir_parts rest components parts
  end.

Definition generate_build_dir_name (components : dict) : outcome string :=
  parts <- build_dir_parts categories components [] ;;
  Returned (PyStr.join "-" parts).

Definition skip_categories : list string :=
  ["int_size"; "lib_type"; "build_python"; "documentation"; "generator"; "threading"].

(** The loop of [generate_install_dir_name]. *)
Fixpoint install_dir_parts (cats : list string) (components : dict)
         (parts : list string) : outcome (list string) :=
  match cats with
  | [] => Returned parts
  | category :: rest =>
      if PyStr.mem category skip_categories then
        install_dir_parts rest components parts
      else
        v <- getitem components category ;;
        if negb (v =? "empty") then install_dir_parts rest components (parts ++ [v])
        else install_dir_parts rest components parts
  end.

Definition generate_install_dir_name (components : dict) : outcome string :=
  parts <- install_dir_parts categories components [] ;;
  Returned (PyStr.join "-" parts).

(** ** The name parser *)

(** The inner loop of [parse_preset_name]: every category whose options hold
    [part], in registry order. *)
Fixpoint collect_matches (registry : list (string * (list string * string * string)))
         (part : string) (matches : list (string * string)) : list (string * string) :=
  match registry with
  | [] => matches
  | (category, (options, _, _)) :: rest =>
      if PyStr.mem part options
      then collect_matches rest part (matches ++ [(category, part)])
      else collect_matches rest part matches
  end.

Definition find_matches (part : string) : list (string * string) :=
  collect_matches PRESET_OPTIONS part [].

(** The outer loop of [parse_preset_name]. *)
Fixpoint parse_parts (parts : list string) (result : dict) : outcome dict :=
  match parts with
  | [] => Returned result
  | part :: rest =>
      let matches := find_matches part in
      if (1 <? List.length matches)%nat then
        Raised (ValueError (AmbiguousToken part (map fst matches)))
      else
        match matches with
        | [(category, value)] =>
            current <- getitem result category ;;
            if negb (current =? "empty") then
              Raised (ValueError (DuplicateCategory category current value))
            else parse_parts rest (dict_set result category value)
        | _ => Raised (ValueError (UnrecognizedToken part))
        end
  end.

Definition parse_preset_name (preset_name : string) : outcome dict :=
  let parts := PyStr.split "-" preset_name in
  match parts with
  | [] => Raised (ValueError EmptyName)
  | _ :: _ =>
      let result := dict_of (map (fun category => (category, "empty")) categories) in
      result <- parse_parts parts result ;;
      platform <- getitem result "platform" ;;
      let result := if platform =? "win" then dict_set result "generator" "msvc"
                    else result in
      platform <- getitem result "platform" ;;
      win_compiler <-
        (if platform =? "win" then
           compiler <- getitem result "compiler" ;;
           Returned (negb (compiler =? "empty"))
         else Returned false) ;;
      if (win_compiler : bool) then Raised (ValueError IncompatiblePlatformCompiler)
      else
        lib_type <- getitem result "lib_type" ;;
        static_python <-
          (if lib_type =? "static" then
             build_python <- getitem result "build_python" ;;
             Returned (build_python =? "python")
           else Returned false) ;;
        if (static_python : bool) then Raised (ValueError StaticPythonConflict)
        else Returned result
  end.

(** ** The preset document *)

Record configure_preset : Type := {
  cp_name : string;
  cp_inherits : list string;
  cp_cacheVariables : dict;
  cp_binaryDir : string;
  cp_hidden : bool
}.

Record workflow_preset : Type := {
  wf_name : string;
  wf_description : string;
  wf_steps : list dict
}.

Record preset : Type := {
  version : Z;
  include : list string;
  configurePresets : list configure_preset;
  buildPresets : list dict;
  testPresets : list dict;
  workflowPresets : list workflow_preset
}.

(** ** Standard output *)

Inductive line : Type :=
| PrintParseError (e : value_error)        (* "Error: {e}" *)
| PrintFormatExamples                      (* "Valid format examples:" and two lines *)
| PrintGeneratedFile (output_file : string)
| PrintAdded (preset_file : string)        (* "Added .. to includes.json" *)
| PrintAlready (preset_file : string)      (* ".. already in includes.json" *)
| PrintGenerating (n : Z) (preset_name : string)
                                           (* "[n] Generating preset: .." *)
| PrintItemError (e : exn)                 (* "  Error: {str(e)}" *)
| PrintReachedLimit (limit : Z)
| PrintSummary (successful total skipped : Z)
| PrintDryRun.

(** The loop of [generate_preset] over [components.items()]. *)
Definition inherits_of (components : dict) : list string :=
  fold_left (fun inherits kv => if negb (snd kv =? "empty")
                                then inherits ++ [snd kv]
                                else inherits)
            (dict_items components) ["base"].

(** [generate_preset]: what it prints and how it ends.  Only a [ValueError]
    of the parser is handled, by printing it and leaving through
    [sys.exit(1)]. *)
Definition generate_preset (preset_name : string) : list line * outcome preset :=
  match parse_preset_name preset_name with
  | Raised (ValueError e) => ([PrintParseError e; PrintFormatExamples], Exited 1)
  | Raised e => ([], Raised e)
  | Exited code => ([], Exited code)
  | Returned components =>
      let inherits := inherits_of components in
      ([],
       build_dir_name <- generate_build_dir_name components ;;
       install_dir_name <- generate_install_dir_name components ;;
       Returned {|
         version := 6;
         include := ["base.json"];
         configurePresets :=
           [ {| cp_name := preset_name;
                cp_inherits := inherits;
                cp_cacheVariables :=
                  dict_of [("CMAKE_INSTALL_PREFIX",
                            ("${sourceDir}/install-" ++ install_dir_name)%string)];
                cp_binaryDir := ("${sourceDir}/build-" ++ build_dir_name)%string;
                cp_hidden := false |} ];
         buildPresets :=
           [ dict_of [("name", preset_name);
                      ("configurePreset", preset_name);
                      ("inherits", "base")];
             dict_of [("name", (preset_name ++ "-install")%string);
                      ("configurePreset", preset_name);
                      ("inherits", "base");
                      ("targets", "install")] ];
         testPresets :=
           [ dict_of [("name", preset_name);
                      ("configurePreset", preset_name);
                      ("inherits", "base")] ];
         workflowPresets :=
           [ {| wf_name := preset_name;
                wf_description := "Build and check AOCL-DA";
                wf_steps :=
                  [ dict_of [("type", "configure"); ("name", preset_name)];
                    dict_of [("type", "build");
                             ("name", preset_name);
                             ("name", (preset_name ++ "-install")%string)];
                    dict_of [("type", "test"); ("name", preset_name)] ] |} ]
       |})
  end.

(** ** Files and the batch driver *)

(** The script directory: the preset files written so far and, once it
    exists, the list held by [includes.json]. *)
Record world : Type := {
  preset_files : list (string * preset);
  includes_json : option (list string)
}.

(** A computation that reads and writes the script directory, prints, and
    ends in an [outcome]. *)
Definition io (A : Type) : Type := world -> world * list line * outcome A.

Definition io_ret {A : Type} (a : A) : io A := fun w => (w, [], Returned a).

Definition io_bind {A B : Type} (m : io A) (k : A -> io B) : io B :=
  fun w =>
    match m w with
    | (w1, out1, Returned a) =>
        match k a w1 with
        | (w2, out2, r) => (w2, out1 ++ out2, r)
        end
    | (w1, out1, Raised e) => (w1, out1, Raised e)
    | (w1, out1, Exited code) => (w1, out1, Exited code)
    end.

Notation "x <~ m ;; k" := (io_bind m (fun x => k))
  (at level 61, m at next level, right associativity).

Definition print (l : line) : io unit := fun w => (w, [l], Returned tt).
Definition raise {A : Type} (e : exn) : io A := fun w => (w, [], Raised e).

(** [try: body / except Exception as e: handler(e)]. *)
Definition try_except {A : Type} (body : io A) (handler : exn -> io A) : io A :=
  fun w =>
    match body w with
    | (w1, out1, Raised e) =>
        match handler e w1 with
        | (w2, out2, r) => (w2, out1 ++ out2, r)
        end
    | r => r
    end.

Record counters : Type := {
  total_presets : Z;
  successful_presets : Z;
  skipped_presets : Z
}.

(** One element of an [itertools.product] loop: the [lib] and [python]
    variables and the [preset_parts] list before [python] is appended. *)
Record candidate : Type := {
  cand_lib : string;
  cand_python : string;
  cand_parts : list string
}.

Definition preset_name_of (c : candidate) : string :=
  let preset_parts :=
    if PyStr.truthy (cand_python c) then cand_parts c ++ [cand_python c]
    else cand_parts c in
  PyStr.join "-" (filter PyStr.truthy preset_parts).

Definition is_skipped (c : candidate) : bool :=
  (cand_lib c =? "static") && (cand_python c =? "python").

(** [itertools.product] of the Linux loop, last factor varying fastest. *)
Definition linux_candidates (platform : string) (compilers threading int_size lib_type
                             build_type arch build_python : list string) : list candidate :=
  flat_map (fun comp => flat_map (fun thread => flat_map (fun int_s =>
  flat_map (fun lib => flat_map (fun btype => flat_map (fun ar =>
  map (fun python =>
         {| cand_lib := lib; cand_python := python;
            cand_parts := [platform; comp; thread; int_s; lib; btype; ar] |})
      build_python) arch) build_type) lib_type) int_size) threading) compilers.

(** [itertools.product] of the Windows loop. *)
Definition win_candidates (platform : string) (threading int_size lib_type
                           build_type arch build_python : list string) : list candidate :=
  flat_map (fun thread => flat_map (fun int_s =>
  flat_map (fun lib => flat_map (fun btype => flat_map (fun ar =>
  map (fun python =>
         {| cand_lib := lib; cand_python := python;
            cand_parts := [platform; thread; int_s; lib; btype; ar] |})
      build_python) arch) build_type) lib_type) int_size) threading.

(** Truthiness of the [limit] argument: [None] and [0] are falsy. *)
Definition limit_set (limit : option Z) : bool :=
  match limit with
  | None => false
  | Some n => negb (n =? 0)%Z
  end.

Definition limit_value (limit : option Z) : Z :=
  match limit with
  | None => 0%Z
  | Some n => n
  end.

Section Driver.

(** Opening a file of the script directory may raise: [io_fault w f] is the
    exception raised, if any, when [f] is opened in the directory state [w]. *)
Variable io_fault : world -> string -> option exn.

Definition open_file (f : string) : io unit :=
  fun w =>
    match io_fault w f with
    | Some e => (w, [], Raised e)
    | None => (w, [], Returned tt)
    end.

Definition update_includes_file (preset_name : string) : io unit :=
  _ <~ open_file "includes.json" ;;
  includes <~ (fun w =>
                 match includes_json w with
                 | None => ({| preset_files := preset_files w;
                               includes_json := Some [] |}, [], Returned [])
                 | Some l => (w, [], Returned l)
                 end) ;;
  let preset_file := (preset_name ++ ".json")%string in
  if negb (PyStr.mem preset_file includes) then
    _ <~ (fun w => ({| preset_files := preset_files w;
                       includes_json := Some (includes ++ [preset_file]) |},
                    [], Returned tt)) ;;
    print (PrintAdded preset_file)
  else print (PrintAlready preset_file).

Definition single_preset (preset_name : string) : io string :=
  preset <~ (fun w => (w, fst (generate_preset preset_name),
                       snd (generate_preset preset_name))) ;;
  let output_file := (preset_name ++ ".json")%string in
  _ <~ open_file output_file ;;
  _ <~ (fun w => ({| preset_files := (output_file, preset) :: preset_files w;
                     includes_json := includes_json w |}, [], Returned tt)) ;;
  _ <~ print (PrintGeneratedFile output_file) ;;
  _ <~ update_includes_file preset_name ;;
  io_ret output_file.

Variable dry_run : bool.
Variable limit : option Z.

(** One [itertools.product] loop of [generate_all_presets].  [break] and the
    end of the list both return the counters. *)
Fixpoint product_loop (candidates : list candidate) (c : counters) : io counters :=
  match candidates with
  | [] => io_ret c
  | cand :: rest =>
      if is_skipped cand then
        product_loop rest {| total_presets := total_presets c;
                             successful_presets := successful_presets c;
                             skipped_presets := skipped_presets c + 1 |}
      else
        let preset_name := preset_name_of cand in
        let c := {| total_presets := total_presets c + 1;
                    successful_presets := successful_presets c;
                    skipped_presets := skipped_presets c |} in
        if limit_set limit && (limit_value limit <? total_presets c)%Z then io_ret c
        else
          _ <~ print (PrintGenerating (total_presets c) preset_name) ;;
          if negb dry_run then
            c <~ try_except
                   (_ <~ single_preset preset_name ;;
                    io_ret {| total_presets := total_presets c;
                              successful_presets := successful_presets c + 1;
                              skipped_presets := skipped_presets c |})
                   (fun e => _ <~ print (PrintItemError e) ;; io_ret c) ;;
            product_loop rest c
          else product_loop rest c
  end.

Definition compilers : list string := ["gcc"; "clang"].
Definition threading : list string := ["st"; "mt"].
Definition int_size : list string := ["lp64"; "ilp64"].
Definition lib_type : list string := ["static"; "shared"].
Definition build_type : list string := ["release"; "debug"].
Definition arch : list string := ["native"; "dynamic"].
Definition build_python : list string := [""; "python"].

Definition candidates_of (platform : string) : list candidate :=
  if platform =? "linux" then
    linux_candidates platform compilers threading int_size lib_type build_type arch
                     build_python
  else
    win_candidates platform threading int_size lib_type build_type arch build_python.

(** The loop over [platforms]. *)
Fixpoint platform_loop (platforms : list string) (c : counters) : io counters :=
  match platforms with
  | [] => io_ret c
  | platform :: rest =>
      c <~ product_loop (candidates_of platform) c ;;
      if limit_set limit && (limit_value limit <=? total_presets c)%Z then
        _ <~ print (PrintReachedLimit (limit_value limit)) ;;
        io_ret c
      else platform_loop rest c
  end.

Definition platforms : list string := ["linux"; "win"].

Definition generate_all_presets : io counters :=
  c <~ platform_loop platforms {| total_presets := 0; successful_presets := 0;
                                  skipped_presets := 0 |} ;;
  _ <~ print (PrintSummary (successful_presets c) (total_presets c) (skipped_presets c)) ;;
  _ <~ (if dry_run then print PrintDryRun else io_ret tt) ;;
  io_ret c.

End Driver.

(** ** Definitions used to state the properties *)

(** A Resolved Configuration maps every category to a value. *)
Definition is_resolved (cfg : dict) : bool :=
  forallb (fun c => match dict_get cfg c with Some _ => true | None => false end)
          categories.

(** ... and each value is the sentinel or a legal token of its category. *)
Definition well_formed_config (cfg : dict) : bool :=
  forallb (fun c => match dict_get cfg c with
                    | Some v => (v =? "empty") || PyStr.mem v (options_of c)
                    | None => false
                    end)
          categories.

(** The value a configuration holds for a category. *)
Definition value_of (cfg : dict) (c : string) : string :=
  match dict_get cfg c with
  | Some v => v
  | None => "empty"
  end.

(** Every non-sentinel token, in category declaration order. *)
Definition chosen_tokens (cfg : dict) : list string :=
  flat_map (fun c => if value_of cfg c =? "empty" then [] else [value_of cfg c])
           categories.

(** The build directory name in the words of the specification: the
    non-sentinel tokens in category order, the generator's left out on
    Windows. *)
Definition spec_build_dir_tokens (cfg : dict) : list string :=
  flat_map (fun c =>
              if value_of cfg c =? "empty" then []
              else if (c =? "generator") && (value_of cfg "platform" =? "win") then []
              else [value_of cfg c])
           categories.

(** The install directory name in the words of the specification: the
    non-sentinel tokens in category order, outside the skip set. *)
Definition spec_install_dir_tokens (cfg : dict) : list string :=
  flat_map (fun c =>
              if PyStr.mem c skip_categories then []
              else if value_of cfg c =? "empty" then []
              else [value_of cfg c])
           categories.

(** [t in s] for strings. *)
Fixpoint contains (s t : string) : bool :=
  String.prefix t s ||
  match s with
  | EmptyString => false
  | String _ rest => contains rest t
  end.

(** The legal tokens of the categories the install directory name skips,
    and those of the categories it keeps. *)
Definition skipped_vocabulary : list string := flat_map options_of skip_categories.

Definition install_vocabulary : list string :=
  flat_map options_of
           (filter (fun c => negb (PyStr.mem c skip_categories)) categories).

(** A selection chooses a token for some of the categories. *)
Definition selection : Type := dict.

Definition selected_tokens (sel : selection) : list string :=
  flat_map (fun c => match dict_get sel c with Some t => [t] | None => [] end)
           categories.

(** The preset name of a selection: its tokens in category order, joined
    with hyphens. *)
Definition name_of_selection (sel : selection) : string :=
  PyStr.join "-" (selected_tokens sel).

Definition legal_selection (sel : selection) : bool :=
  forallb (fun c => match dict_get sel c with
                    | Some t => PyStr.mem t (options_of c)
                    | None => true
                    end)
          categories.

(** No compiler with the Windows platform, no python with a static
    library. *)
Definition respects_exclusivity (sel : selection) : bool :=
  match dict_get sel "platform", dict_get sel "compiler" with
  | Some p, Some _ => negb (p =? "win")
  | _, _ => true
  end &&
  match dict_get sel "lib_type", dict_get sel "build_python" with
  | Some l, Some _ => negb (l =? "static")
  | _, _ => true
  end.

Definition well_formed_selection (sel : selection) : bool :=
  legal_selection sel && respects_exclusivity sel &&
  match selected_tokens sel with [] => false | _ :: _ => true end.

(** The configuration the selection describes: its token for a chosen
    category, the sentinel for the others. *)
Definition selected_config (sel : selection) : dict :=
  map (fun c => (c, match dict_get sel c with Some t => t | None => "empty" end))
      categories.

(** Storing the tokens of a selection into a dictionary, category by
    category. *)
Definition store_selected (sel : selection) (cs : list string) (d : dict) : dict :=
  fold_left (fun d c => match dict_get sel c with
                        | Some t => dict_set d c t
                        | None => d
                        end) cs d.

(** The same, with the generator the parser forces on Windows. *)
Definition resolved_config (sel : selection) : dict :=
  if value_of (selected_config sel) "platform" =? "win"
  then dict_set (selected_config sel) "generator" "msvc"
  else selected_config sel.

(** The preset names announced by "Generating preset" lines. *)
Definition generating (out : list line) : list string :=
  flat_map (fun l => match l with PrintGenerating _ n => [n] | _ => [] end) out.

(** The per-item errors printed by the batch driver. *)
Definition item_errors (out : list line) : list exn :=
  flat_map (fun l => match l with PrintItemError e => [e] | _ => [] end) out.

(** The names of the candidates that are not skipped. *)
Definition valid_names (candidates : list candidate) : list string :=
  map preset_name_of (filter (fun c => negb (is_skipped c)) candidates).

(** Every name the batch driver can attempt, Linux first. *)
Definition all_names : list string :=
  valid_names (candidates_of "linux") ++ valid_names (candidates_of "win").

(** How many more presets the limit allows once [total] are counted;
    [None] when there is no limit. *)
Definition budget (limit : option Z) (total : Z) : option nat :=
  if limit_set limit then Some (Z.to_nat (limit_value limit - total)) else None.

Definition take {A : Type} (b : option nat) (l : list A) : list A :=
  match b with
  | Some k => firstn k l
  | None => l
  end.

(** Whether the limit cuts short a loop over [n] candidates that are not
    skipped. *)
Definition cut_short (limit : option Z) (total : Z) (n : nat) : bool :=
  match budget limit total with
  | Some k => (k <? n)%nat
  | None => false
  end.

Definition parses (name : string) : bool :=
  match parse_preset_name name with
  | Returned _ => true
  | _ => false
  end.

(** The dictionary [parse_preset_name] starts from. *)
Definition initial_result : dict :=
  dict_of (map (fun category => (category, "empty")) categories).

(** Example inputs. *)
Definition no_fault : world -> string -> option exn := fun _ _ => None.
Definition empty_world : world := {| preset_files := []; includes_json := None |}.
Definition one_fault : world -> string -> option exn :=
  fun _ f => if f =? "linux-gcc-st-lp64-shared-release-native.json"
             then Some (OSError "Permission denied") else None.
Definition unparsable_candidate : candidate :=
  {| cand_lib := "shared"; cand_python := ""; cand_parts := ["linux"; "icc"] |}.
Definition sel_linux : selection :=
  [("platform", "linux"); ("generator", "make"); ("compiler", "gcc");
   ("threading", "mt"); ("int_size", "lp64"); ("lib_type", "static");
   ("arch", "znver3"); ("build_type", "release")].
Definition sel_win : selection := [("platform", "win"); ("threading", "st")].
Definition sel_win_ninja : selection :=
  [("platform", "win"); ("generator", "ninja"); ("threading", "st")].
Definition cfg_win : dict :=
  [("platform", "win"); ("generator", "msvc"); ("compiler", "empty");
   ("threading", "st"); ("int_size", "lp64"); ("lib_type", "shared");
   ("build_python", "python"); ("arch", "znver3"); ("build_type", "empty");
   ("sanitizer", "empty"); ("mem_sanitizer", "empty"); ("code_coverage", "empty");
   ("valgrind", "empty"); ("documentation", "doc"); ("libmem", "empty")].

(** The tokens of a name that are not generator tokens. *)
Definition without_generator (tokens : list string) : list string :=
  filter (fun t => negb (PyStr.mem t (options_of "generator"))) tokens.

(** The tokens a build directory name is expected to hold for a preset
    name: all of them, or all but the generator's under platform ["win"]. *)
Definition build_dir_tokens_of_name (cfg : dict) (preset_name : string) : list string :=
  if value_of cfg "platform" =? "win"
  then without_generator (PyStr.split "-" preset_name)
  else PyStr.split "-" preset_name.

(** The tokens of a name that are not legal tokens of a skipped category. *)
Definition without_skipped (tokens : list string) : list string :=
  filter (fun t => negb (PyStr.mem t skipped_vocabulary)) tokens.

(** An example fault: [includes.json] cannot be opened. *)
Definition includes_fault : world -> string -> option exn :=
  fun _ f => if f =? "includes.json" then Some (OSError "Permission denied") else None.

(** The selection a dictionary describes: its entries that do not hold the
    sentinel. *)
Definition selection_of (d : dict) : selection :=
  filter (fun kv => negb (snd kv =? "empty")) d.

(** The list [includes.json] holds; none before the file exists. *)
Definition includes_of (w : world) : list string :=
  match includes_json w with
  | Some l => l
  | None => []
  end.

(** [w'] extends [w]: the preset files of [w] are kept, below the new
    ones; the entries of [includes.json] are kept, before the new ones; and
    if the list had no repetition it still has none. *)
Definition extends (w w' : world) : Prop :=
  (exists new, preset_files w' = new ++ preset_files w) /\
  (exists added, includes_of w' = includes_of w ++ added) /\
  (NoDup (includes_of w) -> NoDup (includes_of w')).

(** ** The command line *)

(** What [argparse] hands to [main]: the optional positional name and the
    three options. *)
Record arguments : Type := {
  arg_preset_name : option string;
  arg_generate_all : bool;
  arg_dry_run : bool;
  arg_limit : option Z
}.

(** The lines [main] prints: its banner, the catalogue of
    [print_available_options], and the lines of the functions it calls. *)
Inductive main_line : Type :=
| PrintBanner                (* "CMake Preset Generator for AOCL-Data Analytics (AOCL-DA)" *)
| PrintAvailableOptions      (* the output of print_available_options() *)
| PrintLine (l : line).

(** [main], after [parser.parse_args()].  A missing name is [None]; like the
    empty name it is falsy in [elif args.preset_name]. *)
Definition main (io_fault : world -> string -> option exn) (args : arguments)
  : world -> world * list main_line * outcome unit :=
  fun w =>
    if arg_generate_all args then
      match generate_all_presets io_fault (arg_dry_run args) (arg_limit args) w with
      | (w', out, r) =>
          (w', PrintBanner :: map PrintLine out, _ <- r ;; Returned tt)
      end
    else
      match arg_preset_name args with
      | Some preset_name =>
          if PyStr.truthy preset_name then
            match single_preset io_fault preset_name w with
            | (w', out, r) =>
                (w', PrintBanner :: map PrintLine out, _ <- r ;; Returned tt)
            end
          else (w, [PrintBanner; PrintAvailableOptions], Exited 1)
      | None => (w, [PrintBanner; PrintAvailableOptions], Exited 1)
      end.

(** * Data validation: [aoclda/_internal_utils.py] *)

Module InternalUtils.

(** NumPy element types: the four the library computes with, and the
    others (float16, int16, object, ...), by name. *)
Inductive np_dtype : Type :=
| float32
| float64
| int32
| int64
| other_dtype (name : string).

Definition np_dtype_eqb (a b : np_dtype) : bool :=
  match a, b with
  | float32, float32 | float64, float64 | int32, int32 | int64, int64 => true
  | other_dtype n, other_dtype m => n =? m
  | _, _ => false
  end.

(** [d in allowed_dtypes]. *)
Definition dtype_in (d : np_dtype) (allowed_dtypes : list np_dtype) : bool :=
  existsb (np_dtype_eqb d) allowed_dtypes.

(** The value passed as [dtype]: a string, or any other Python value. *)
Inductive dtype_argument : Type :=
| DtypeName (name : string)
| NotAString.

(** [dtype in names], for a list of strings. *)
Definition name_in (dtype : dtype_argument) (names : list string) : bool :=
  match dtype with
  | DtypeName name => PyStr.mem name names
  | NotAString => false
  end.

(** [np.dtype(dtype)] for the names that pass the check. *)
Definition np_dtype_of (dtype : dtype_argument) : np_dtype :=
  match dtype with
  | DtypeName name =>
      if name =? "float32" then float32
      else if name =? "float64" then float64
      else if name =? "int32" then int32
      else if name =? "int64" then int64
      else other_dtype name
  | NotAString => other_dtype ""
  end.

(** The classes of the exceptions NumPy and the input object may raise. *)
Inductive exception_class : Type :=
| AttributeError
| ValueError
| TypeError
| KeyError
| IndexError.

(** What [check_convert_data] raises: its two [ValueError]s, or an
    exception of a call it makes, passed on. *)
Inductive raised : Type :=
| BadDtypeArgument                     (* "dtype must be 'float32' or 'float64' if ..." *)
| CannotConvert (dtype : np_dtype)     (* "Input data cannot be converted to a NumPy
                                           ndarray of type {dtype}." *)
| PassedOn (e : exception_class).

(** [UserWarning("Input had an unsupported data type and has been cast to
    {dtype}.")]. *)
Inductive warning : Type :=
| CastWarning (dtype : np_dtype).

Section CheckConvertData.

(** NumPy arrays and the other array-like inputs (lists, data frames). *)
Variable ndarray : Type.
Variable array_like : Type.

(** [X.dtype] and [X.astype(dtype=dtype)] of an array. *)
Variable array_dtype : ndarray -> np_dtype.
Variable astype : ndarray -> np_dtype -> exception_class + ndarray.

(** For another input: [len(X)]; [X[0]] with its [dtype] attribute, [None]
    when [hasattr(X[0], 'dtype')] is false; and [np.asarray(X, dtype=..)]. *)
Variable len : array_like -> exception_class + nat.
Variable first_dtype : array_like -> exception_class + option np_dtype.
Variable asarray : array_like -> np_dtype -> exception_class + ndarray.

Inductive input : Type :=
| Array (X : ndarray)
| Other (X : array_like).

(** The body of the [try] statement: the array and the warnings issued, or
    the exception raised inside it. *)
Definition convert_array_like (X : array_like) (dtype : np_dtype)
           (allowed_dtypes : list np_dtype)
  : exception_class + (ndarray * list warning) :=
  match len X with
  | inl e => inl e
  | inr n =>
      let cast :=
        match asarray X dtype with
        | inl e => inl e
        | inr Y => inr (Y, [CastWarning dtype])
        end in
      if (0 <? n)%nat then
        match first_dtype X with
        | inl e => inl e
        | inr (Some d) =>
            if dtype_in d allowed_dtypes then
              match asarray X d with
              | inl e => inl e
              | inr Y => inr (Y, [])
              end
            else cast
        | inr None => cast
        end
      else cast
  end.

Definition check_convert_data (X : input) (dtype : dtype_argument) (force_float : bool)
  : raised + (ndarray * list warning) :=
  let checked :=
    if force_float && name_in dtype ["float32"; "float64"] then
      Some [float32; float64]
    else if negb force_float && name_in dtype ["float32"; "float64"; "int32"; "int64"] then
      Some [float32; float64; int32; int64]
    else None in
  match checked with
  | None => inl BadDtypeArgument
  | Some allowed_dtypes =>
      let dtype := np_dtype_of dtype in
      match X with
      | Array X =>
          if negb (dtype_in (array_dtype X) allowed_dtypes) then
            match astype X dtype with
            | inl e => inl (PassedOn e)
            | inr Y => inr (Y, [CastWarning dtype])
            end
          else inr (X, [])
      | Other X =>
          match convert_array_like X dtype allowed_dtypes with
          | inl AttributeError => inl (CannotConvert dtype)
          | inl e => inl (PassedOn e)
          | inr r => inr r
          end
      end
  end.

End CheckConvertData.

(** The element types a call allows, by [force_float]. *)
Definition allowed (force_float : bool) (d : np_dtype) : bool :=
  if force_float then dtype_in d [float32; float64]
  else dtype_in d [float32; float64; int32; int64].

(** A small instance: an array is its element type and its rows. *)
Definition table : Type := np_dtype * list (list Z).
Definition table_astype (X : table) (d : np_dtype) : exception_class + table :=
  inr (d, snd X).
Definition rows_len (X : list (list Z)) : exception_class + nat := inr (List.length X).
Definition rows_first_dtype (X : list (list Z)) : exception_class + option np_dtype :=
  inr None.
Definition rows_asarray (X : list (list Z)) (d : np_dtype) : exception_class + table :=
  inr (d, X).

End InternalUtils.

(** * Properties *)

(** ** Dictionaries *)

Lemma dict_get_set_same (d : dict) (k v : string) :
  dict_get (dict_set d k v) k = Some v.
Proof.
  induction d as [|[k' v'] d IH]; simpl.
  - now rewrite String.eqb_refl.
  - destruct (k' =? k) eqn:E; simpl; rewrite E; auto.
Qed.

Lemma dict_get_set_other (d : dict) (k k' v : string) :
  k <> k' -> dict_get (dict_set d k v) k' = dict_get d k'.
Proof.
  intros Hne. induction d as [|[k0 v0] d IH]; simpl.
  - apply String.eqb_neq in Hne. now rewrite Hne.
  - destruct (k0 =? k) eqn:E; simpl.
    + apply String.eqb_eq in E. subst k0.
      apply String.eqb_neq in Hne. now rewrite Hne.
    + now rewrite IH.
Qed.

Lemma dict_keys_set (d : dict) (k v : string) :
  dict_get d k <> None -> dict_keys (dict_set d k v) = dict_keys d.
Proof.
  induction d as [|[k' v'] d IH]; simpl; intros H.
  - congruence.
  - destruct (k' =? k) eqn:E; simpl; [reflexivity|].
    f_equal. now apply IH.
Qed.

Lemma dict_get_in_keys (d : dict) (k : string) :
  dict_get d k <> None <-> In k (dict_keys d).
Proof.
  induction d as [|[k' v'] d IH]; simpl.
  - split; [congruence | tauto].
  - destruct (String.eqb_spec k' k) as [->|Hne].
    + split; [auto | congruence].
    + rewrite IH. split; [auto | intros [?|?]; [contradiction | assumption]].
Qed.

(** Two dictionaries with the same keys, none repeated, and the same value
    under each key are the same dictionary. *)
Lemma dict_ext (d1 d2 : dict) :
  dict_keys d1 = dict_keys d2 -> NoDup (dict_keys d1) ->
  (forall k, In k (dict_keys d1) -> dict_get d1 k = dict_get d2 k) ->
  d1 = d2.
Proof.
  revert d2. induction d1 as [|[k v] d1 IH]; intros [|[k2 v2] d2]; simpl;
    try discriminate; auto.
  intros Hk Hnd Hget. injection Hk as -> Hk. inversion Hnd as [|? ? Hnin Hnd']; subst.
  pose proof (Hget k2 (or_introl eq_refl)) as H0. rewrite String.eqb_refl in H0.
  injection H0 as ->. f_equal. apply IH; auto.
  intros k Hin. specialize (Hget k (or_intror Hin)).
  destruct (String.eqb_spec k2 k) as [->|]; [contradiction | assumption].
Qed.

(** ** The parser *)

Lemma initial_result_keys : dict_keys initial_result = categories.
Proof. reflexivity. Qed.

Lemma categories_nodup : NoDup categories.
Proof.
  unfold categories; simpl.
  repeat (constructor; [simpl; intros H; repeat (destruct H as [H|H]; [discriminate H|]);
                        exact H|]).
  constructor.
Qed.

Lemma getitem_returned (d : dict) (k v : string) :
  getitem d k = Returned v <-> dict_get d k = Some v.
Proof.
  unfold getitem. destruct (dict_get d k); split; intros H; congruence.
Qed.

(** The token loop keeps the keys of [result], and their order. *)
Lemma parse_parts_keys (parts : list string) :
  forall result r, parse_parts parts result = Returned r ->
                   dict_keys r = dict_keys result.
Proof.
  induction parts as [|part rest IH]; simpl; intros result r H.
  - now injection H as <-.
  - destruct (1 <? List.length (find_matches part))%nat; [discriminate|].
    destruct (find_matches part) as [|[category value] [|? ?]]; try discriminate.
    unfold getitem in H. destruct (dict_get result category) as [current|] eqn:E;
      simpl in H; [|discriminate].
    destruct (negb (current =? "empty")); [discriminate|].
    rewrite (IH _ _ H). apply dict_keys_set. congruence.
Qed.

(** The token loop raises nothing but the three token errors. *)
Lemma parse_parts_raises (parts : list string) :
  forall result e, dict_keys result = categories ->
    parse_parts parts result = Raised e ->
    (exists part cats, e = ValueError (AmbiguousToken part cats)) \/
    (exists c old new, e = ValueError (DuplicateCategory c old new)) \/
    (exists part, e = ValueError (UnrecognizedToken part)) \/
    (exists k, e = KeyError k).
Proof.
  induction parts as [|part rest IH]; simpl; intros result e Hk H; [discriminate|].
  destruct (1 <? List.length (find_matches part))%nat.
  { injection H as <-. left; eauto. }
  destruct (find_matches part) as [|[category value] [|? ?]].
  - injection H as <-. right; right; left; eauto.
  - unfold getitem in H. destruct (dict_get result category) as [current|] eqn:E;
      simpl in H.
    + destruct (negb (current =? "empty")).
      * injection H as <-. right; left; eauto.
      * apply IH in H; auto. rewrite dict_keys_set; congruence.
    + injection H as <-. right; right; right; eauto.
  - injection H as <-. right; right; left; eauto.
Qed.

Lemma parse_parts_no_exit (parts : list string) :
  forall result code, parse_parts parts result <> Exited code.
Proof.
  induction parts as [|part rest IH]; simpl; intros result code; [discriminate|].
  destruct (1 <? List.length (find_matches part))%nat; [discriminate|].
  destruct (find_matches part) as [|[category value] [|? ?]]; try discriminate.
  unfold getitem. destruct (dict_get result category) as [current|]; simpl;
    [|discriminate].
  destruct (negb (current =? "empty")); [discriminate | apply IH].
Qed.

(** What a successful parse went through. *)
Lemma parse_preset_name_inv (preset_name : string) (cfg : dict) :
  parse_preset_name preset_name = Returned cfg ->
  exists r p,
    parse_parts (PyStr.split "-" preset_name) initial_result = Returned r /\
    dict_get r "platform" = Some p /\
    cfg = (if p =? "win" then dict_set r "generator" "msvc" else r).
Proof.
  unfold parse_preset_name. fold initial_result.
  destruct (PyStr.split "-" preset_name) as [|p0 ps]; [discriminate|].
  destruct (parse_parts (p0 :: ps) initial_result) as [r| |] eqn:Hr; simpl;
    try discriminate.
  unfold getitem at 1. destruct (dict_get r "platform") as [p|] eqn:Hp; simpl;
    [|discriminate].
  intros H. exists r, p. repeat split; auto.
  set (r' := if p =? "win" then dict_set r "generator" "msvc" else r) in *.
  repeat match type of H with
         | bind ?m _ = _ => destruct m; simpl in H; try discriminate H
         | (if ?b then _ else _) = _ => destruct b; simpl in H; try discriminate H
         end.
  now injection H.
Qed.

Lemma split_not_nil (sep : ascii) (s : string) : PyStr.split sep s <> [].
Proof.
  destruct s as [|c s]; simpl; [discriminate|].
  destruct (Ascii.eqb c sep); [discriminate|].
  destruct (PyStr.split sep s); discriminate.
Qed.

Lemma parse_preset_name_keys (preset_name : string) (cfg : dict) :
  parse_preset_name preset_name = Returned cfg -> dict_keys cfg = categories.
Proof.
  intros H. apply parse_preset_name_inv in H as (r & p & Hr & Hp & ->).
  apply parse_parts_keys in Hr. rewrite initial_result_keys in Hr.
  destruct (p =? "win"); [|assumption].
  rewrite dict_keys_set; [assumption|].
  apply dict_get_in_keys. rewrite Hr. unfold categories; simpl; auto.
Qed.

(** C3, on the code: the empty name is split into the one token [""], which
    matches no category, so the parser raises "does not match any category"
    for it; the "Empty preset name" error guards a case [str.split] never
    produces and is raised for no name at all. *)
Theorem parse_empty_name_is_unrecognized_token :
  parse_preset_name "" = Raised (ValueError (UnrecognizedToken "")) /\
  (forall name, PyStr.split "-" name <> []) /\
  (forall name, parse_preset_name name <> Raised (ValueError EmptyName)).
Proof.
  split; [reflexivity|]. split; [intros name; apply split_not_nil|].
  intros name H. unfold parse_preset_name in H. fold initial_result in H.
  destruct (PyStr.split "-" name) as [|p0 ps] eqn:Hs.
  { now apply split_not_nil in Hs. }
  destruct (parse_parts (p0 :: ps) initial_result) as [r|e|] eqn:Hr; simpl in H;
    try discriminate.
  - unfold getitem in H.
    repeat match type of H with
           | context [match dict_get ?d ?k with _ => _ end] =>
               destruct (dict_get d k); simpl in H; try discriminate H
           | context [if ?b then _ else _] =>
               destruct b; simpl in H; try discriminate H
           end.
  - injection H as ->.
    apply parse_parts_raises in Hr; [|apply initial_result_keys].
    destruct Hr as [(? & ? & ?)|[(? & ? & ? & ?)|[(? & ?)|(? & ?)]]]; discriminate.
Qed.

(** C6: whenever a name parses and its platform is ["win"], the generator of
    the returned configuration is ["msvc"], whatever the name held. *)
Theorem parse_win_forces_msvc (preset_name : string) (cfg : dict) :
  parse_preset_name preset_name = Returned cfg ->
  dict_get cfg "platform" = Some "win" ->
  dict_get cfg "generator" = Some "msvc".
Proof.
  intros H Hwin. apply parse_preset_name_inv in H as (r & p & _ & Hp & ->).
  destruct (p =? "win") eqn:E.
  - apply dict_get_set_same.
  - rewrite Hp in Hwin. injection Hwin as ->. discriminate E.
Qed.

Lemma parse_win_forces_msvc_witness :
  exists cfg, parse_preset_name "win-ninja-st" = Returned cfg /\
              dict_get cfg "platform" = Some "win" /\
              dict_get cfg "generator" = Some "msvc".
Proof.
  eexists. split; [reflexivity|]. split; [reflexivity|].
  apply (parse_win_forces_msvc "win-ninja-st"); reflexivity.
Defined.

(** ** Directory names *)

Lemma is_resolved_get (cfg : dict) (c : string) :
  is_resolved cfg = true -> In c categories ->
  dict_get cfg c = Some (value_of cfg c).
Proof.
  unfold is_resolved, value_of. rewrite forallb_forall. intros H Hin.
  specialize (H c Hin). destruct (dict_get cfg c); [reflexivity | discriminate].
Qed.

Lemma well_formed_is_resolved (cfg : dict) :
  well_formed_config cfg = true -> is_resolved cfg = true.
Proof.
  unfold well_formed_config, is_resolved. rewrite !forallb_forall.
  intros H c Hin. specialize (H c Hin). now destruct (dict_get cfg c).
Qed.

Lemma keys_is_resolved (cfg : dict) :
  dict_keys cfg = categories -> is_resolved cfg = true.
Proof.
  intros Hk. unfold is_resolved. apply forallb_forall. intros c Hin.
  rewrite <- Hk in Hin. apply dict_get_in_keys in Hin.
  now destruct (dict_get cfg c).
Qed.

Lemma platform_is_category : In "platform" categories.
Proof. unfold categories; simpl; auto. Qed.

(** The build directory loop appends, to the parts it starts from, what the
    specification lists for the categories it runs over. *)
Lemma build_dir_parts_spec (cfg : dict) :
  is_resolved cfg = true ->
  forall cats parts, incl cats categories ->
    build_dir_parts cats cfg parts =
    Returned (parts ++
              flat_map (fun c =>
                          if value_of cfg c =? "empty" then []
                          else if (c =? "generator") &&
                                  (value_of cfg "platform" =? "win") then []
                          else [value_of cfg c]) cats).
Proof.
  intros Hres. induction cats as [|c cats IH]; intros parts Hincl; simpl.
  - now rewrite app_nil_r.
  - assert (Hc : In c categories) by (apply Hincl; simpl; auto).
    assert (Hcats : incl cats categories) by (intros x Hx; apply Hincl; simpl; auto).
    unfold getitem. rewrite (is_resolved_get cfg c Hres Hc); simpl.
    destruct (value_of cfg c =? "empty"); simpl.
    + now apply IH.
    + destruct (c =? "generator"); simpl.
      * rewrite (is_resolved_get cfg "platform" Hres platform_is_category); simpl.
        destruct (value_of cfg "platform" =? "win"); simpl.
        -- now apply IH.
        -- rewrite IH by assumption. now rewrite <- app_assoc.
      * rewrite IH by assumption. now rewrite <- app_assoc.
Qed.

Lemma install_dir_parts_spec (cfg : dict) :
  is_resolved cfg = true ->
  forall cats parts, incl cats categories ->
    install_dir_parts cats cfg parts =
    Returned (parts ++
              flat_map (fun c =>
                          if PyStr.mem c skip_categories then []
                          else if value_of cfg c =? "empty" then []
                          else [value_of cfg c]) cats).
Proof.
  intros Hres. induction cats as [|c cats IH]; intros parts Hincl;
    cbn [install_dir_parts flat_map].
  - now rewrite app_nil_r.
  - assert (Hc : In c categories) by (apply Hincl; simpl; auto).
    assert (Hcats : incl cats categories) by (intros x Hx; apply Hincl; simpl; auto).
    destruct (PyStr.mem c skip_categories).
    + now apply IH.
    + unfold getitem. rewrite (is_resolved_get cfg c Hres Hc). cbn [bind].
      destruct (value_of cfg c =? "empty"); cbn [negb].
      * now apply IH.
      * rewrite IH by assumption. now rewrite <- app_assoc.
Qed.

Lemma generate_build_dir_name_resolved (cfg : dict) :
  is_resolved cfg = true ->
  generate_build_dir_name cfg = Returned (PyStr.join "-" (spec_build_dir_tokens cfg)).
Proof.
  intros Hres. unfold generate_build_dir_name.
  rewrite (build_dir_parts_spec cfg Hres) by apply incl_refl. reflexivity.
Qed.

Lemma generate_install_dir_name_resolved (cfg : dict) :
  is_resolved cfg = true ->
  generate_install_dir_name cfg =
  Returned (PyStr.join "-" (spec_install_dir_tokens cfg)).
Proof.
  intros Hres. unfold generate_install_dir_name.
  rewrite (install_dir_parts_spec cfg Hres) by apply incl_refl. reflexivity.
Qed.

(** C7: for a resolved configuration the build directory name is the
    hyphen-joined list, in category order, of the non-sentinel tokens, the
    generator's being left out when the platform is ["win"]; off Windows the
    list is every non-sentinel token. *)
Theorem build_dir_name_spec (cfg : dict) :
  is_resolved cfg = true ->
  generate_build_dir_name cfg = Returned (PyStr.join "-" (spec_build_dir_tokens cfg)) /\
  (value_of cfg "platform" <> "win" -> spec_build_dir_tokens cfg = chosen_tokens cfg) /\
  (value_of cfg "platform" = "win" ->
   spec_build_dir_tokens cfg =
   flat_map (fun c => if c =? "generator" then []
                      else if value_of cfg c =? "empty" then [] else [value_of cfg c])
            categories).
Proof.
  intros Hres. split; [now apply generate_build_dir_name_resolved|].
  unfold spec_build_dir_tokens, chosen_tokens. split; intros Hp.
  - apply String.eqb_neq in Hp. rewrite Hp.
    apply flat_map_ext. intros c. now rewrite andb_false_r.
  - rewrite Hp. apply flat_map_ext. intros c. rewrite andb_true_r.
    destruct (value_of cfg c =? "empty"), (c =? "generator"); reflexivity.
Qed.

Lemma build_dir_name_spec_witness :
  generate_build_dir_name cfg_win = Returned "win-st-lp64-shared-python-znver3-doc".
Proof.
  destruct (build_dir_name_spec cfg_win) as [H _]; [reflexivity|].
  rewrite H. reflexivity.
Defined.

(** *** Substrings of hyphen-joined names *)

Lemma prefix_app_sep (sep : ascii) (a rest : string) :
  forall t, PyStr.has_char sep t = false ->
            String.prefix t (a ++ String sep rest)%string = String.prefix t a.
Proof.
  induction a as [|x a IH]; intros [|c t] Ht; simpl in *; try reflexivity.
  - apply orb_false_iff in Ht as [Hc _]. apply Ascii.eqb_neq in Hc.
    now destruct (ascii_dec c sep).
  - apply orb_false_iff in Ht as [_ Ht].
    destruct (ascii_dec c x); [now apply IH | reflexivity].
Qed.

Lemma contains_empty_string (t : string) : t <> "" -> contains "" t = false.
Proof. destruct t; [congruence | reflexivity]. Qed.

Lemma contains_app_sep (sep : ascii) (a rest t : string) :
  PyStr.has_char sep t = false -> t <> "" ->
  contains (a ++ String sep rest)%string t = contains a t || contains rest t.
Proof.
  intros Ht Hne. induction a as [|x a IH].
  - pose proof (prefix_app_sep sep "" rest t Ht) as Hp. cbn [append] in *.
    cbn [contains]. rewrite Hp.
    destruct t; [congruence | reflexivity].
  - change (String x a ++ String sep rest)%string
      with (String x (a ++ String sep rest)%string).
    cbn [contains]. rewrite IH.
    change (String x (a ++ String sep rest)%string)
      with (String x a ++ String sep rest)%string.
    rewrite (prefix_app_sep sep (String x a) rest t Ht).
    now rewrite orb_assoc.
Qed.

(** A separator-free string occurs in a joined name only inside one of the
    joined parts. *)
Lemma contains_join (sep : ascii) (t : string) (parts : list string) :
  PyStr.has_char sep t = false -> t <> "" ->
  contains (PyStr.join (String sep "") parts) t =
  existsb (fun part => contains part t) parts.
Proof.
  intros Ht Hne. unfold PyStr.join.
  induction parts as [|x [|y l] IH].
  - simpl. now apply contains_empty_string.
  - simpl. now rewrite orb_false_r.
  - change (concat (String sep "") (x :: y :: l))
      with (x ++ String sep (concat (String sep "") (y :: l)))%string.
    rewrite contains_app_sep by assumption. now rewrite IH.
Qed.

Lemma mem_In (x : string) (xs : list string) : PyStr.mem x xs = true <-> In x xs.
Proof.
  unfold PyStr.mem. rewrite existsb_exists. split.
  - intros (y & Hy & E). apply String.eqb_eq in E. now subst.
  - intros H. exists x. split; [assumption | apply String.eqb_refl].
Qed.

(** The tokens the install directory name is built from are legal tokens of
    categories outside the skip set. *)
Lemma install_tokens_vocabulary (cfg : dict) :
  well_formed_config cfg = true ->
  forall tok, In tok (spec_install_dir_tokens cfg) -> In tok install_vocabulary.
Proof.
  unfold well_formed_config. rewrite forallb_forall. intros Hwf tok Hin.
  unfold spec_install_dir_tokens in Hin. apply in_flat_map in Hin as (c & Hc & Hin).
  destruct (PyStr.mem c skip_categories) eqn:Hskip; [contradiction|].
  destruct (value_of cfg c =? "empty") eqn:Hv; [contradiction|].
  destruct Hin as [<-|[]].
  specialize (Hwf c Hc). unfold value_of in *. destruct (dict_get cfg c) as [v|];
    [|discriminate].
  rewrite Hv in Hwf. simpl in Hwf. apply mem_In in Hwf.
  unfold install_vocabulary. apply in_flat_map. exists c. split; [|assumption].
  apply filter_In. split; [assumption|]. now rewrite Hskip.
Qed.

(** No legal token of a skipped category occurs inside a legal token of a
    kept one, and none is empty or holds a hyphen. *)
Lemma vocabularies_apart :
  forallb (fun t => negb (PyStr.has_char "-" t) && negb (t =? "") &&
                    forallb (fun tok => negb (contains tok t)) install_vocabulary)
          skipped_vocabulary = true.
Proof. reflexivity. Qed.

(** C8: for a well-formed resolved configuration the install directory name
    is the hyphen-joined list, in category order, of the non-sentinel tokens
    of the categories outside the skip set, and no legal token of a skipped
    category occurs in it, whatever the platform. *)
Theorem install_dir_name_spec (cfg : dict) :
  well_formed_config cfg = true ->
  exists s, generate_install_dir_name cfg = Returned s /\
            s = PyStr.join "-" (spec_install_dir_tokens cfg) /\
            forall c t, In c skip_categories -> In t (options_of c) ->
                        contains s t = false.
Proof.
  intros Hwf. eexists. split.
  { apply generate_install_dir_name_resolved. now apply well_formed_is_resolved. }
  split; [reflexivity|]. intros c t Hc Ht.
  assert (Hvoc : In t skipped_vocabulary).
  { unfold skipped_vocabulary. apply in_flat_map. eauto. }
  pose proof vocabularies_apart as Hap. rewrite forallb_forall in Hap.
  specialize (Hap t Hvoc). apply andb_true_iff in Hap as [Hap Hno].
  apply andb_true_iff in Hap as [Hhy Hne].
  apply negb_true_iff in Hhy. apply negb_true_iff in Hne. apply String.eqb_neq in Hne.
  change "-" with (String "-" "") at 1.
  rewrite contains_join by assumption.
  apply not_true_iff_false. intros Hex. apply existsb_exists in Hex as (tok & Hin & Hct).
  apply (install_tokens_vocabulary cfg Hwf) in Hin.
  rewrite forallb_forall in Hno. specialize (Hno tok Hin).
  rewrite Hct in Hno. discriminate.
Qed.

Lemma install_dir_name_spec_witness :
  exists s, generate_install_dir_name cfg_win = Returned s /\
            s = "win-znver3" /\ contains s "doc" = false.
Proof.
  destruct (install_dir_name_spec cfg_win) as (s & Hs & Heq & Hno); [reflexivity|].
  exists s. split; [assumption|]. split; [rewrite Heq; reflexivity|].
  apply (Hno "documentation"); simpl; auto.
Defined.

(** ** The preset document *)

Lemma inherits_fold (items : list (string * string)) :
  forall inherits,
    fold_left (fun inherits kv => if negb (snd kv =? "empty")
                                  then inherits ++ [snd kv] else inherits)
              items inherits =
    inherits ++ flat_map (fun kv => if snd kv =? "empty" then [] else [snd kv]) items.
Proof.
  induction items as [|kv items IH]; intros inherits; simpl.
  - now rewrite app_nil_r.
  - rewrite IH. destruct (snd kv =? "empty"); simpl; [reflexivity|].
    now rewrite <- app_assoc.
Qed.

(** Reading a dictionary through its keys gives its values, in order. *)
Lemma values_through_keys (d : dict) :
  NoDup (dict_keys d) -> map (value_of d) (dict_keys d) = map snd d.
Proof.
  induction d as [|[k v] d IH]; simpl; intros Hnd; [reflexivity|].
  inversion Hnd as [|? ? Hnin Hnd']; subst.
  unfold value_of at 1. simpl. rewrite String.eqb_refl. f_equal.
  rewrite <- IH by assumption. apply map_ext_in. intros c Hc.
  unfold value_of. simpl.
  destruct (String.eqb_spec k c) as [->|]; [contradiction | reflexivity].
Qed.

Lemma inherits_of_chosen_tokens (cfg : dict) :
  dict_keys cfg = categories -> inherits_of cfg = "base" :: chosen_tokens cfg.
Proof.
  intros Hk. unfold inherits_of, dict_items. rewrite inherits_fold. simpl. f_equal.
  unfold chosen_tokens.
  rewrite !flat_map_concat_map. f_equal.
  rewrite <- (map_map snd (fun v => if v =? "empty" then [] else [v])).
  rewrite <- (map_map (value_of cfg) (fun v => if v =? "empty" then [] else [v])).
  f_equal. rewrite <- Hk. symmetry. apply values_through_keys.
  rewrite Hk. apply categories_nodup.
Qed.

(** A name that parses gets its document, and nothing is printed. *)
Lemma generate_preset_parsed (preset_name : string) (cfg : dict) :
  parse_preset_name preset_name = Returned cfg ->
  exists doc,
    generate_preset preset_name = ([], Returned doc) /\
    configurePresets doc =
      [ {| cp_name := preset_name;
           cp_inherits := inherits_of cfg;
           cp_cacheVariables :=
             [("CMAKE_INSTALL_PREFIX",
               ("${sourceDir}/install-" ++
                PyStr.join "-" (spec_install_dir_tokens cfg))%string)];
           cp_binaryDir :=
             ("${sourceDir}/build-" ++ PyStr.join "-" (spec_build_dir_tokens cfg))%string;
           cp_hidden := false |} ] /\
    buildPresets doc =
      [ [("name", preset_name); ("configurePreset", preset_name); ("inherits", "base")];
        [("name", (preset_name ++ "-install")%string); ("configurePreset", preset_name);
         ("inherits", "base"); ("targets", "install")] ] /\
    testPresets doc =
      [ [("name", preset_name); ("configurePreset", preset_name); ("inherits", "base")] ] /\
    workflowPresets doc =
      [ {| wf_name := preset_name;
           wf_description := "Build and check AOCL-DA";
           wf_steps :=
             [ [("type", "configure"); ("name", preset_name)];
               [("type", "build"); ("name", (preset_name ++ "-install")%string)];
               [("type", "test"); ("name", preset_name)] ] |} ].
Proof.
  intros H. pose proof (keys_is_resolved cfg (parse_preset_name_keys _ _ H)) as Hres.
  unfold generate_preset. rewrite H.
  rewrite (generate_build_dir_name_resolved cfg Hres).
  rewrite (generate_install_dir_name_resolved cfg Hres).
  cbn [bind]. eexists. split; [reflexivity|]. repeat split; reflexivity.
Qed.

Lemma append_not_self (s t : string) : t <> "" -> (s ++ t)%string <> s.
Proof.
  intros Ht. induction s as [|c s IH]; simpl.
  - exact Ht.
  - intros H. injection H as H. now apply IH.
Qed.

(** C4: for every name that parses, the workflow of the emitted document
    runs configure, build and test in that order; its build step names the
    install variant [name ++ "-install"], which is a build preset of the
    document and differs from the plain build preset [name]. *)
Theorem workflow_build_step_is_install (preset_name : string) (cfg : dict) :
  parse_preset_name preset_name = Returned cfg ->
  exists doc wf,
    snd (generate_preset preset_name) = Returned doc /\
    workflowPresets doc = [wf] /\
    wf_steps wf =
      [ [("type", "configure"); ("name", preset_name)];
        [("type", "build"); ("name", (preset_name ++ "-install")%string)];
        [("type", "test"); ("name", preset_name)] ] /\
    map (fun b => dict_get b "name") (buildPresets doc) =
      [Some preset_name; Some (preset_name ++ "-install")%string] /\
    (preset_name ++ "-install")%string <> preset_name.
Proof.
  intros H. destruct (generate_preset_parsed _ _ H) as (doc & Hd & _ & Hb & _ & Hw).
  eexists doc, _. rewrite Hd. split; [reflexivity|]. split; [exact Hw|].
  split; [reflexivity|]. split; [now rewrite Hb|].
  apply append_not_self. discriminate.
Qed.

Lemma workflow_build_step_is_install_witness :
  exists doc wf,
    snd (generate_preset "linux-gcc-st") = Returned doc /\
    workflowPresets doc = [wf] /\
    map (fun step => dict_get step "name") (wf_steps wf) =
      [Some "linux-gcc-st"; Some "linux-gcc-st-install"; Some "linux-gcc-st"].
Proof.
  destruct (workflow_build_step_is_install "linux-gcc-st" _ eq_refl)
    as (doc & wf & Hd & Hw & Hs & _).
  exists doc, wf. split; [exact Hd|]. split; [exact Hw|]. rewrite Hs. reflexivity.
Defined.

(** C9: for every name that parses, the inheritance list of the configure
    preset is ["base"] followed by every non-sentinel token of the resolved
    configuration in category order; on Windows the forced ["msvc"] is one
    of them. *)
Theorem inherits_list_spec (preset_name : string) (cfg : dict) :
  parse_preset_name preset_name = Returned cfg ->
  exists doc cp,
    snd (generate_preset preset_name) = Returned doc /\
    configurePresets doc = [cp] /\
    cp_inherits cp = "base" :: chosen_tokens cfg /\
    (dict_get cfg "platform" = Some "win" -> In "msvc" (cp_inherits cp)).
Proof.
  intros H. destruct (generate_preset_parsed _ _ H) as (doc & Hd & Hc & _).
  eexists doc, _. rewrite Hd. split; [reflexivity|]. split; [exact Hc|].
  cbn [cp_inherits].
  rewrite (inherits_of_chosen_tokens cfg (parse_preset_name_keys _ _ H)).
  split; [reflexivity|]. intros Hwin. right.
  assert (Hg : value_of cfg "generator" = "msvc").
  { apply parse_preset_name_inv in H as (r & p & _ & Hp & ->).
    unfold value_of. destruct (p =? "win") eqn:E.
    - now rewrite dict_get_set_same.
    - rewrite Hp in Hwin. injection Hwin as ->. discriminate E. }
  unfold chosen_tokens. apply in_flat_map. exists "generator". split.
  - unfold categories; simpl; auto.
  - rewrite Hg. simpl. auto.
Qed.

Lemma inherits_list_spec_witness :
  exists doc cp,
    snd (generate_preset "win-st-shared") = Returned doc /\
    configurePresets doc = [cp] /\
    cp_inherits cp = ["base"; "win"; "msvc"; "st"; "shared"].
Proof.
  destruct (inherits_list_spec "win-st-shared" _ eq_refl) as (doc & cp & Hd & Hc & Hi & _).
  exists doc, cp. split; [exact Hd|]. split; [exact Hc|]. rewrite Hi. reflexivity.
Defined.

(** ** Names built from a selection *)

Lemma split_sep_free (sep : ascii) (t : string) :
  PyStr.has_char sep t = false -> PyStr.split sep t = [t].
Proof.
  induction t as [|c t IH]; simpl; intros H; [reflexivity|].
  apply orb_false_iff in H as [Hc Ht]. rewrite Hc. now rewrite IH.
Qed.

Lemma split_app_sep (sep : ascii) (a rest : string) :
  PyStr.has_char sep a = false ->
  PyStr.split sep (a ++ String sep rest)%string = a :: PyStr.split sep rest.
Proof.
  induction a as [|c a IH]; simpl; intros H.
  - now rewrite Ascii.eqb_refl.
  - apply orb_false_iff in H as [Hc Ha]. rewrite Hc. now rewrite IH.
Qed.

(** Splitting undoes joining, for parts that hold no separator. *)
Lemma split_join (sep : ascii) (parts : list string) :
  parts <> [] -> Forall (fun t => PyStr.has_char sep t = false) parts ->
  PyStr.split sep (PyStr.join (String sep "") parts) = parts.
Proof.
  unfold PyStr.join. induction parts as [|x [|y l] IH]; intros Hne Hall.
  - congruence.
  - simpl. apply split_sep_free. now inversion Hall.
  - change (concat (String sep "") (x :: y :: l))
      with (x ++ String sep (concat (String sep "") (y :: l)))%string.
    inversion Hall as [|? ? Hx Hrest]; subst.
    rewrite split_app_sep by assumption. f_equal. apply IH; [discriminate | assumption].
Qed.

(** The registry is collision-free: a legal token matches its category and
    no other, and it holds no hyphen. *)
Lemma legal_token_matches (c t : string) :
  In c categories -> In t (options_of c) ->
  find_matches t = [(c, t)] /\ PyStr.has_char "-" t = false.
Proof.
  unfold categories; simpl. intros Hc Ht.
  repeat (destruct Hc as [<-|Hc];
          [simpl in Ht;
           repeat (destruct Ht as [<-|Ht]; [split; reflexivity|]); contradiction|]).
  contradiction.
Qed.

Lemma legal_selection_get (sel : selection) (c t : string) :
  legal_selection sel = true -> In c categories -> dict_get sel c = Some t ->
  In t (options_of c).
Proof.
  unfold legal_selection. rewrite forallb_forall. intros H Hc Ht.
  specialize (H c Hc). rewrite Ht in H. now apply mem_In.
Qed.

Lemma store_selected_cons (sel : selection) (c : string) (cs : list string) (d : dict) :
  store_selected sel (c :: cs) d =
  store_selected sel cs (match dict_get sel c with
                         | Some t => dict_set d c t
                         | None => d
                         end).
Proof. reflexivity. Qed.

(** The token loop, run on the tokens of a selection for categories that
    still hold the sentinel, stores each token under its category. *)
Lemma parse_parts_selected (sel : selection) :
  legal_selection sel = true ->
  forall cs result,
    NoDup cs -> incl cs categories ->
    (forall c, In c cs -> dict_get result c = Some "empty") ->
    parse_parts (flat_map (fun c => match dict_get sel c with
                                    | Some t => [t]
                                    | None => []
                                    end) cs) result =
    Returned (store_selected sel cs result).
Proof.
  intros Hlegal. induction cs as [|c cs IH]; intros result Hnd Hincl Hempty.
  - reflexivity.
  - inversion Hnd as [|? ? Hnin Hnd']; subst.
    assert (Hc : In c categories) by (apply Hincl; simpl; auto).
    assert (Hcs : incl cs categories) by (intros x Hx; apply Hincl; simpl; auto).
    rewrite store_selected_cons. cbn [flat_map].
    destruct (dict_get sel c) as [t|] eqn:Hsel.
    + cbn [app parse_parts].
      destruct (legal_token_matches c t Hc (legal_selection_get _ _ _ Hlegal Hc Hsel))
        as [Hm _].
      rewrite Hm. cbn [List.length Nat.ltb Nat.leb].
      unfold getitem. rewrite (Hempty c) by (simpl; auto). cbn [bind].
      rewrite String.eqb_refl. cbn [negb].
      apply IH; auto.
      intros c' Hc'. rewrite dict_get_set_other.
      * apply Hempty. simpl; auto.
      * intros ->. contradiction.
    + cbn [app]. apply IH; auto. intros c' Hc'. apply Hempty. simpl; auto.
Qed.

Lemma store_selected_keys (sel : selection) (cs : list string) :
  forall d, (forall c, In c cs -> In c (dict_keys d)) ->
            dict_keys (store_selected sel cs d) = dict_keys d.
Proof.
  induction cs as [|c cs IH]; intros d Hin; [reflexivity|].
  rewrite store_selected_cons.
  assert (Hk : dict_keys (match dict_get sel c with
                          | Some t => dict_set d c t
                          | None => d
                          end) = dict_keys d).
  { destruct (dict_get sel c); [|reflexivity].
    apply dict_keys_set. apply dict_get_in_keys. apply Hin. simpl; auto. }
  rewrite IH; [exact Hk|].
  intros c' Hc'. rewrite Hk. apply Hin. simpl; auto.
Qed.

Lemma store_selected_get (sel : selection) (cs : list string) :
  NoDup cs ->
  forall d k,
    dict_get (store_selected sel cs d) k =
    if PyStr.mem k cs
    then match dict_get sel k with
         | Some t => Some t
         | None => dict_get d k
         end
    else dict_get d k.
Proof.
  induction cs as [|c cs IH]; intros Hnd d k; [reflexivity|].
  inversion Hnd as [|? ? Hnin Hnd']; subst.
  rewrite store_selected_cons.
  rewrite IH by assumption. unfold PyStr.mem. cbn [existsb]. fold (PyStr.mem k cs).
  destruct (String.eqb_spec k c) as [->|Hne]; cbn [orb].
  - assert (Hm : PyStr.mem c cs = false).
    { apply not_true_iff_false. intros Hm. now apply mem_In in Hm. }
    rewrite Hm. destruct (dict_get sel c); [apply dict_get_set_same | reflexivity].
  - assert (Hd : dict_get (match dict_get sel c with
                           | Some t => dict_set d c t
                           | None => d
                           end) k = dict_get d k).
    { destruct (dict_get sel c); [|reflexivity].
      apply dict_get_set_other. congruence. }
    now rewrite Hd.
Qed.

Lemma dict_get_map (g : string -> string) (ks : list string) (k : string) :
  dict_get (map (fun c => (c, g c)) ks) k =
  if PyStr.mem k ks then Some (g k) else None.
Proof.
  induction ks as [|c ks IH]; [reflexivity|].
  cbn [map dict_get]. unfold PyStr.mem. cbn [existsb]. fold (PyStr.mem k ks).
  rewrite String.eqb_sym.
  destruct (String.eqb_spec k c) as [->|Hne]; cbn [orb]; [reflexivity | apply IH].
Qed.

Lemma dict_keys_map (g : string -> string) (ks : list string) :
  dict_keys (map (fun c => (c, g c)) ks) = ks.
Proof.
  unfold dict_keys. rewrite map_map. cbn [fst]. apply map_id.
Qed.

(** Storing a selection into the initial dictionary gives the configuration
    the selection describes. *)
Lemma store_selected_initial (sel : selection) :
  store_selected sel categories initial_result = selected_config sel.
Proof.
  assert (Hinit : initial_result = map (fun c => (c, "empty")) categories)
    by reflexivity.
  apply dict_ext.
  - rewrite store_selected_keys.
    + unfold selected_config. now rewrite dict_keys_map.
    + intros c Hc. now rewrite initial_result_keys.
  - rewrite store_selected_keys.
    + rewrite initial_result_keys. apply categories_nodup.
    + intros c Hc. now rewrite initial_result_keys.
  - intros k _. rewrite (store_selected_get sel categories categories_nodup).
    unfold selected_config. rewrite dict_get_map. rewrite Hinit, dict_get_map.
    destruct (PyStr.mem k categories); [|reflexivity].
    now destruct (dict_get sel k).
Qed.

Lemma initial_result_empty (c : string) :
  In c categories -> dict_get initial_result c = Some "empty".
Proof.
  intros Hc. change initial_result with (map (fun c => (c, "empty")) categories).
  rewrite dict_get_map. apply mem_In in Hc. now rewrite Hc.
Qed.

Lemma selected_tokens_hyphen_free (sel : selection) :
  legal_selection sel = true ->
  Forall (fun t => PyStr.has_char "-" t = false) (selected_tokens sel).
Proof.
  intros Hlegal. apply Forall_forall. intros t Ht.
  unfold selected_tokens in Ht. apply in_flat_map in Ht as (c & Hc & Ht).
  destruct (dict_get sel c) as [t'|] eqn:Hsel; [|contradiction].
  destruct Ht as [<-|[]].
  apply (legal_token_matches c t' Hc (legal_selection_get _ _ _ Hlegal Hc Hsel)).
Qed.

Lemma selected_config_get (sel : selection) (c : string) :
  In c categories ->
  dict_get (selected_config sel) c =
  Some (match dict_get sel c with Some t => t | None => "empty" end).
Proof.
  intros Hc. unfold selected_config. rewrite dict_get_map.
  apply mem_In in Hc. now rewrite Hc.
Qed.

(** C1 (amended): for a well-formed selection (legal tokens, no compiler
    with ["win"], no python with ["static"], at least one token) the name
    made of its tokens in category order parses, and the result holds the
    supplied token under each chosen category and the sentinel under the
    others, except that under platform ["win"] the generator is ["msvc"],
    whether or not a generator token was supplied. *)
Theorem parse_selection (sel : selection) :
  well_formed_selection sel = true ->
  parse_preset_name (name_of_selection sel) = Returned (resolved_config sel) /\
  (forall c, In c categories ->
             (dict_get sel "platform" = Some "win" -> c <> "generator") ->
             dict_get (resolved_config sel) c =
             Some (match dict_get sel c with Some t => t | None => "empty" end)) /\
  (dict_get sel "platform" = Some "win" ->
   dict_get (resolved_config sel) "generator" = Some "msvc").
Proof.
  unfold well_formed_selection. intros Hwf.
  apply andb_true_iff in Hwf as [Hwf Hne]. apply andb_true_iff in Hwf as [Hlegal Hrules].
  split; [|split].
  - unfold parse_preset_name, name_of_selection.
    change "-" with (String "-" "") at 2.
    rewrite split_join;
      [| destruct (selected_tokens sel); [discriminate Hne | discriminate]
       | now apply selected_tokens_hyphen_free].
    destruct (selected_tokens sel) as [|t0 ts] eqn:Htoks; [discriminate Hne|].
    rewrite <- Htoks. fold initial_result. unfold selected_tokens.
    rewrite (parse_parts_selected sel Hlegal categories initial_result categories_nodup
               (incl_refl _) initial_result_empty).
    rewrite store_selected_initial. cbn [bind].
    unfold resolved_config, value_of, respects_exclusivity in *.
    clear Hlegal Htoks Hne. unfold selected_config, categories. simpl.
    destruct (dict_get sel "platform") as [p|];
      destruct (dict_get sel "compiler") as [cc|];
      destruct (dict_get sel "lib_type") as [l|];
      destruct (dict_get sel "build_python") as [b|]; simpl in *;
      try destruct (p =? "win") eqn:Ep; try destruct (l =? "static") eqn:El;
      simpl in *; rewrite ?Ep, ?El; simpl; try discriminate Hrules; reflexivity.
  - intros c Hc Hgen. unfold resolved_config, value_of.
    rewrite (selected_config_get sel "platform" platform_is_category).
    destruct (dict_get sel "platform") as [p|] eqn:Hp.
    + destruct (String.eqb_spec p "win") as [->|Hp'].
      * rewrite dict_get_set_other; [now apply selected_config_get|].
        intros <-. now apply Hgen.
      * now apply selected_config_get.
    + now apply selected_config_get.
  - intros Hp. unfold resolved_config, value_of.
    rewrite (selected_config_get sel "platform" platform_is_category), Hp.
    apply dict_get_set_same.
Qed.

Lemma parse_selection_witness :
  parse_preset_name "linux-make-gcc-mt-lp64-static-znver3-release" =
  Returned (selected_config sel_linux).
Proof.
  destruct (parse_selection sel_linux) as [H _]; [reflexivity|]. exact H.
Defined.

(** C1 as stated fails on Windows names: ["win-st"] supplies no generator,
    yet the parsed configuration holds ["msvc"] and not the sentinel under
    the generator; and in ["win-ninja-st"] the supplied ["ninja"] is
    replaced. *)
Lemma parse_selection_win_counterexample :
  well_formed_selection sel_win = true /\
  name_of_selection sel_win = "win-st" /\
  parse_preset_name (name_of_selection sel_win) <> Returned (selected_config sel_win) /\
  well_formed_selection sel_win_ninja = true /\
  name_of_selection sel_win_ninja = "win-ninja-st" /\
  parse_preset_name (name_of_selection sel_win_ninja) <>
  Returned (selected_config sel_win_ninja).
Proof.
  repeat split; try reflexivity; intros H; vm_compute in H; discriminate H.
Qed.

(** ** The batch driver *)

Lemma generating_app (out1 out2 : list line) :
  generating (out1 ++ out2) = generating out1 ++ generating out2.
Proof. apply flat_map_app. Qed.

Lemma item_errors_app (out1 out2 : list line) :
  item_errors (out1 ++ out2) = item_errors out1 ++ item_errors out2.
Proof. apply flat_map_app. Qed.

Lemma parses_returned (name : string) :
  parses name = true -> exists cfg, parse_preset_name name = Returned cfg.
Proof.
  unfold parses. destruct (parse_preset_name name); try discriminate. eauto.
Qed.

(** Every name the batch driver builds parses. *)
Lemma all_names_parse : forallb parses all_names = true.
Proof. vm_compute. reflexivity. Qed.

Section DriverProofs.

Variable io_fault : world -> string -> option exn.

(** For a name that parses, the single-preset path returns or raises an
    [Exception]; it never leaves through [sys.exit], and it prints neither
    a "Generating" line nor a per-item error. *)
Lemma single_preset_parsed (preset_name : string) (w : world) :
  parses preset_name = true ->
  exists w' out,
    generating out = [] /\ item_errors out = [] /\
    (single_preset io_fault preset_name w = (w', out, Returned (preset_name ++ ".json")%string)
     \/ exists e, single_preset io_fault preset_name w = (w', out, Raised e)).
Proof.
  intros Hp. apply parses_returned in Hp as (cfg & Hcfg).
  destruct (generate_preset_parsed _ _ Hcfg) as (doc & Hd & _).
  unfold single_preset, update_includes_file, io_bind, open_file, print, io_ret.
  rewrite Hd. cbn [fst snd].
  destruct (io_fault w (preset_name ++ ".json")%string) as [e|].
  { do 2 eexists. split; [|split; [|right; eexists; reflexivity]]; reflexivity. }
  cbn [preset_files includes_json].
  match goal with
  | |- context [io_fault ?w1 "includes.json"] =>
      destruct (io_fault w1 "includes.json") as [e|]
  end.
  { do 2 eexists. split; [|split; [|right; eexists; reflexivity]]; reflexivity. }
  destruct (includes_json w) as [l|]; cbn [preset_files includes_json].
  - destruct (PyStr.mem (preset_name ++ ".json")%string l); cbn [negb];
      do 2 eexists; (split; [|split; [|left; reflexivity]]; reflexivity).
  - cbn [PyStr.mem existsb negb].
    do 2 eexists; (split; [|split; [|left; reflexivity]]; reflexivity).
Qed.

Variable dry_run : bool.
Variable limit : option Z.

Lemma valid_names_skipped (cand : candidate) (rest : list candidate) :
  is_skipped cand = true -> valid_names (cand :: rest) = valid_names rest.
Proof. intros H. unfold valid_names. cbn [filter]. now rewrite H. Qed.

Lemma valid_names_kept (cand : candidate) (rest : list candidate) :
  is_skipped cand = false ->
  valid_names (cand :: rest) = preset_name_of cand :: valid_names rest.
Proof. intros H. unfold valid_names. cbn [filter]. now rewrite H. Qed.

(** The [try] statement of the loop body, for a name that parses: the
    preset is counted as successful, or one per-item error is printed and
    the counters stay as they were. *)
Lemma try_single_preset (preset_name : string) (c_ok c : counters) (w : world) :
  parses preset_name = true ->
  exists w' out c',
    try_except (_ <~ single_preset io_fault preset_name ;; io_ret c_ok)
               (fun e => _ <~ print (PrintItemError e) ;; io_ret c) w
    = (w', out, Returned c') /\
    generating out = [] /\
    ((c' = c_ok /\ item_errors out = []) \/
     (c' = c /\ exists e, item_errors out = [e])).
Proof.
  intros Hp.
  destruct (single_preset_parsed preset_name w Hp) as (w' & out & Hg & He & [Hr|[e Hr]]).
  - exists w', out, c_ok. unfold try_except, io_bind, io_ret. rewrite Hr.
    rewrite app_nil_r. auto.
  - exists w', (out ++ [PrintItemError e]), c.
    unfold try_except, io_bind, io_ret, print. rewrite Hr. cbn [app].
    split; [reflexivity|]. rewrite generating_app, item_errors_app, Hg, He.
    split; [reflexivity|]. right. split; [reflexivity|]. exists e. reflexivity.
Qed.

Lemma io_bind_print {A : Type} (l : line) (k : unit -> io A) (w : world) :
  io_bind (print l) k w =
  match k tt w with
  | (w2, out2, r) => (w2, [l] ++ out2, r)
  end.
Proof. reflexivity. Qed.

Lemma take_nil {A : Type} (b : option nat) : take b (@nil A) = [].
Proof. destruct b as [k|]; [apply firstn_nil | reflexivity]. Qed.

Lemma budget_break (total : Z) (x : string) (l : list string) :
  limit_set limit && (limit_value limit <? total + 1)%Z = true ->
  take (budget limit total) (x :: l) = [] /\
  cut_short limit total (S (List.length l)) = true.
Proof.
  intros H. apply andb_true_iff in H as [Hset Hlt]. apply Z.ltb_lt in Hlt.
  unfold cut_short, budget. rewrite Hset. cbn [take].
  replace (Z.to_nat (limit_value limit - total)) with 0%nat by lia.
  split; reflexivity.
Qed.

Lemma budget_step (total : Z) (x : string) (l : list string) :
  limit_set limit && (limit_value limit <? total + 1)%Z = false ->
  take (budget limit total) (x :: l) = x :: take (budget limit (total + 1)) l /\
  cut_short limit total (S (List.length l)) =
  cut_short limit (total + 1) (List.length l).
Proof.
  intros H. unfold cut_short, budget.
  destruct (limit_set limit); cbn [andb] in H; [|split; reflexivity].
  apply Z.ltb_ge in H. cbn [take].
  replace (Z.to_nat (limit_value limit - total))
    with (S (Z.to_nat (limit_value limit - (total + 1)))) by lia.
  split; reflexivity.
Qed.

(** One [itertools.product] loop over candidates whose names parse: it
    returns; it attempts the names that are not skipped, in order, as far
    as the limit allows; the total counts one more than the attempts when
    the limit cuts the loop short; and every attempt is counted as
    successful or has its error printed. *)
Lemma product_loop_spec (candidates : list candidate) :
  forall c w,
    forallb parses (valid_names candidates) = true ->
    exists w' out c',
      product_loop io_fault dry_run limit candidates c w = (w', out, Returned c') /\
      generating out = take (budget limit (total_presets c)) (valid_names candidates) /\
      total_presets c' =
        (total_presets c + Z.of_nat (List.length (generating out)) +
         (if cut_short limit (total_presets c) (List.length (valid_names candidates))
          then 1 else 0))%Z /\
      (successful_presets c' + Z.of_nat (List.length (item_errors out)) =
       successful_presets c +
       (if dry_run then 0 else Z.of_nat (List.length (generating out))))%Z.
Proof.
  induction candidates as [|cand rest IH]; intros c w Hall.
  - exists w, [], c. cbn [product_loop]. unfold io_ret, cut_short.
    change (valid_names []) with (@nil string).
    rewrite take_nil. cbn [generating item_errors flat_map List.length].
    repeat split; [|destruct dry_run]; destruct (budget limit (total_presets c)); simpl; lia.
  - cbn [product_loop]. destruct (is_skipped cand) eqn:Hs.
    + rewrite (valid_names_skipped cand rest Hs) in *.
      apply (IH {| total_presets := total_presets c;
                   successful_presets := successful_presets c;
                   skipped_presets := skipped_presets c + 1 |} w Hall).
    + rewrite (valid_names_kept cand rest Hs) in *.
      cbn [forallb] in Hall. apply andb_true_iff in Hall as [Hp Hall].
      cbn [total_presets successful_presets skipped_presets List.length].
      destruct (limit_set limit && (limit_value limit <? total_presets c + 1)%Z) eqn:Hb.
      * destruct (budget_break _ (preset_name_of cand) (valid_names rest) Hb)
          as [Htake Hcut].
        rewrite Htake, Hcut.
        eexists w, [], _. unfold io_ret. split; [reflexivity|].
        cbn. repeat split; [lia | destruct dry_run; lia].
      * destruct (budget_step _ (preset_name_of cand) (valid_names rest) Hb)
          as [Htake Hcut].
        rewrite Htake, Hcut.
        set (c1 := {| total_presets := total_presets c + 1;
                      successful_presets := successful_presets c;
                      skipped_presets := skipped_presets c |}).
        rewrite io_bind_print.
        destruct dry_run; cbn [negb].
        -- destruct (IH c1 w Hall) as (w' & out & c' & Hrun & Hgen & Htot & Hsucc).
           rewrite Hrun. exists w', ([PrintGenerating (total_presets c + 1)
                                       (preset_name_of cand)] ++ out), c'.
           split; [reflexivity|].
           rewrite generating_app, item_errors_app. cbn [generating item_errors flat_map app].
           cbn [total_presets successful_presets c1] in *.
           change (flat_map (fun l => match l with PrintGenerating _ n => [n] | _ => [] end) out)
             with (generating out).
           change (flat_map (fun l => match l with PrintItemError e => [e] | _ => [] end) out)
             with (item_errors out).
           rewrite Hgen. repeat split; cbn [List.length]; rewrite <- ?Hgen; lia.
        -- set (c_ok := {| total_presets := total_presets c + 1;
                           successful_presets := successful_presets c + 1;
                           skipped_presets := skipped_presets c |}).
           destruct (try_single_preset (preset_name_of cand) c_ok c1 w Hp)
             as (w1 & out1 & c2 & Htry & Hg1 & Hcase).
           unfold io_bind at 1. rewrite Htry.
           destruct (IH c2 w1 Hall) as (w' & out & c' & Hrun & Hgen & Htot & Hsucc).
           rewrite Hrun.
           exists w', ([PrintGenerating (total_presets c + 1) (preset_name_of cand)]
                         ++ out1 ++ out), c'.
           split; [reflexivity|].
           rewrite !generating_app, !item_errors_app, Hg1.
           cbn [generating item_errors flat_map app].
           change (flat_map (fun l => match l with PrintGenerating _ n => [n] | _ => [] end) out)
             with (generating out).
           assert (Htc : total_presets c2 = (total_presets c + 1)%Z)
             by (destruct Hcase as [[-> _]|[-> _]]; reflexivity).
           rewrite Htc in *. rewrite Hgen.
           repeat split; cbn [List.length]; rewrite <- ?Hgen; [lia|].
           rewrite length_app.
           destruct Hcase as [[-> ->]|[-> [e ->]]];
             cbn [total_presets successful_presets c1 c_ok List.length] in *; lia.
Qed.

Lemma linux_names_length :
  List.length (valid_names (candidates_of "linux")) = 96%nat.
Proof. reflexivity. Qed.

Lemma win_names_length :
  List.length (valid_names (candidates_of "win")) = 48%nat.
Proof. reflexivity. Qed.

Lemma platform_names_parse :
  forallb parses (valid_names (candidates_of "linux")) = true /\
  forallb parses (valid_names (candidates_of "win")) = true.
Proof.
  pose proof all_names_parse as H. unfold all_names in H.
  rewrite forallb_app in H. now apply andb_true_iff in H.
Qed.

(** The loop over the two platforms: it returns, and the names it attempts
    are the names of both platforms, Linux first, as far as the limit
    allows. *)
Lemma platform_loop_spec (w : world) :
  exists w' out c,
    platform_loop io_fault dry_run limit platforms
                  {| total_presets := 0; successful_presets := 0; skipped_presets := 0 |} w
    = (w', out, Returned c) /\
    generating out = take (budget limit 0) all_names /\
    (successful_presets c + Z.of_nat (List.length (item_errors out)) =
     if dry_run then 0 else Z.of_nat (List.length (generating out)))%Z.
Proof.
  destruct platform_names_parse as [Hlin Hwin].
  set (c0 := {| total_presets := 0; successful_presets := 0; skipped_presets := 0 |}).
  destruct (product_loop_spec (candidates_of "linux") c0 w Hlin)
    as (w1 & out1 & c1 & Hrun1 & Hgen1 & Htot1 & Hsucc1).
  unfold platforms. cbn [platform_loop]. unfold io_bind at 1. rewrite Hrun1.
  cbn [total_presets successful_presets c0] in *.
  unfold all_names.
  set (lin := valid_names (candidates_of "linux")) in *.
  set (win := valid_names (candidates_of "win")) in *.
  assert (Hlen : List.length lin = 96%nat) by apply linux_names_length.
  rewrite Hlen in Htot1.
  destruct (limit_set limit && (limit_value limit <=? total_presets c1)%Z) eqn:Hstop.
  - (* the limit is reached after the Linux loop *)
    exists w1, (out1 ++ [PrintReachedLimit (limit_value limit)]), c1.
    split; [reflexivity|].
    rewrite generating_app, item_errors_app. cbn [generating item_errors flat_map].
    rewrite !app_nil_r. split; [|exact Hsucc1].
    rewrite Hgen1. apply andb_true_iff in Hstop as [Hset Hle]. apply Z.leb_le in Hle.
    unfold budget, cut_short, budget in *. rewrite Hset in *. cbn [take] in *.
    rewrite Z.sub_0_r in *. rewrite firstn_app, Hlen.
    rewrite Hgen1, length_firstn, Hlen in Htot1.
    replace (Z.to_nat (limit_value limit) - 96)%nat with 0%nat.
    + cbn [firstn]. now rewrite app_nil_r.
    + destruct (Z.to_nat (limit_value limit) <? 96)%nat eqn:E;
        [apply Nat.ltb_lt in E | apply Nat.ltb_ge in E]; lia.
  - (* the Windows loop runs *)
    destruct (product_loop_spec (candidates_of "win") c1 w1 Hwin)
      as (w2 & out2 & c2 & Hrun2 & Hgen2 & Htot2 & Hsucc2).
    unfold io_bind at 1. rewrite Hrun2.
    assert (Hgen : generating out1 ++ generating out2 = take (budget limit 0) (lin ++ win)).
    { rewrite Hgen1, Hgen2. fold win.
      unfold budget, cut_short, budget in *.
      destruct (limit_set limit); cbn [andb take] in *; [|reflexivity].
      apply Z.leb_gt in Hstop. rewrite Z.sub_0_r in *.
      rewrite Hgen1, length_firstn, Hlen in Htot1.
      rewrite firstn_app, Hlen.
      destruct (Z.to_nat (limit_value limit) <? 96)%nat eqn:E;
        [apply Nat.ltb_lt in E | apply Nat.ltb_ge in E]; [lia|].
      f_equal. f_equal. lia. }
    assert (Hsucc : (successful_presets c2 +
                     Z.of_nat (List.length (item_errors out1 ++ item_errors out2)) =
                     if dry_run then 0
                     else Z.of_nat (List.length (generating out1 ++ generating out2)))%Z).
    { rewrite !length_app. destruct dry_run; lia. }
    destruct (limit_set limit && (limit_value limit <=? total_presets c2)%Z).
    + exists w2, (out1 ++ out2 ++ [PrintReachedLimit (limit_value limit)]), c2.
      split; [reflexivity|].
      rewrite !generating_app, !item_errors_app. cbn [generating item_errors flat_map].
      rewrite !app_nil_r. split; assumption.
    + exists w2, (out1 ++ out2 ++ []), c2.
      split; [reflexivity|].
      rewrite !app_nil_r, generating_app, item_errors_app. split; assumption.
Qed.

(** [generate_all_presets]: it returns its counters for every state of the
    script directory and every way the file operations may fail. *)
Lemma generate_all_presets_spec (w : world) :
  exists w' out c,
    generate_all_presets io_fault dry_run limit w = (w', out, Returned c) /\
    generating out = take (budget limit 0) all_names /\
    (successful_presets c + Z.of_nat (List.length (item_errors out)) =
     if dry_run then 0 else Z.of_nat (List.length (generating out)))%Z.
Proof.
  destruct (platform_loop_spec w) as (w' & out & c & Hrun & Hgen & Hsucc).
  unfold generate_all_presets, io_bind at 1. rewrite Hrun.
  rewrite io_bind_print.
  exists w'. destruct dry_run; unfold io_bind, print, io_ret; cbn [app];
    eexists; exists c; (split; [reflexivity|]);
    rewrite generating_app, item_errors_app; cbn [generating item_errors flat_map];
    rewrite !app_nil_r; split; assumption.
Qed.

End DriverProofs.


(** A run in which one file cannot be written: the error is printed, the
    other 143 presets are generated. *)
Example batch_with_one_fault :
  exists w' out c,
    generate_all_presets one_fault false None empty_world = (w', out, Returned c) /\
    item_errors out = [OSError "Permission denied"] /\
    List.length (generating out) = 144%nat /\
    List.length (preset_files w') = 143%nat /\
    successful_presets c = 143%Z.
Proof. do 3 eexists. vm_compute. repeat split; reflexivity. Qed.

(** The handler of the loop catches [Exception] only: were a candidate's
    name not to parse, [generate_preset] would leave through [sys.exit(1)]
    and end the loop. *)
Example unparsable_candidate_exits :
  snd (product_loop no_fault false None [unparsable_candidate]
                    {| total_presets := 0; successful_presets := 0; skipped_presets := 0 |}
                    empty_world) = Exited 1.
Proof. reflexivity. Qed.

Lemma platform_names_apart :
  forallb (fun name => negb (PyStr.mem name (valid_names (candidates_of "win"))))
          (valid_names (candidates_of "linux")) = true.
Proof. vm_compute. reflexivity. Qed.

Lemma In_firstn {A : Type} (k : nat) (l : list A) (x : A) :
  In x (firstn k l) -> In x l.
Proof.
  revert l. induction k as [|k IH]; intros [|y l]; simpl; try tauto.
  intros [->|H]; auto.
Qed.



(** With a limit the total that is reported counts the candidate at which
    the loop stopped: with limit 1 one preset is attempted and the total
    is 2. *)
Example limit_one_counts_two :
  exists w' out c,
    generate_all_presets no_fault true (Some 1%Z) empty_world = (w', out, Returned c) /\
    generating out = ["linux-gcc-st-lp64-static-release-native"] /\
    total_presets c = 2%Z /\ skipped_presets c = 1%Z.
Proof. do 3 eexists. vm_compute. repeat split; reflexivity. Qed.

(** C10: a limit of 0 is no limit: the driver behaves as without one, and
    attempts every name of both platforms. *)
Theorem limit_zero_is_no_limit (io_fault : world -> string -> option exn)
        (dry_run : bool) (w : world) :
  generate_all_presets io_fault dry_run (Some 0%Z) w =
  generate_all_presets io_fault dry_run None w /\
  exists w' out c,
    generate_all_presets io_fault dry_run (Some 0%Z) w = (w', out, Returned c) /\
    generating out = all_names /\
    List.length (generating out) = 144%nat.
Proof.
  split; [reflexivity|].
  destruct (generate_all_presets_spec io_fault dry_run (Some 0%Z) w)
    as (w' & out & c & Hrun & Hgen & _).
  exists w', out, c. split; [exact Hrun|]. cbn [budget limit_set Z.eqb negb take] in Hgen.
  split; [exact Hgen|]. rewrite Hgen. reflexivity.
Qed.

(** * Further properties of the generator *)

(** ** What the parser accepts *)

Lemma collect_matches_spec
      (registry : list (string * (list string * string * string))) (part : string) :
  forall matches,
    collect_matches registry part matches =
    matches ++ map (fun e => (fst e, part))
                   (filter (fun e => PyStr.mem part (fst (fst (snd e)))) registry).
Proof.
  induction registry as [|[c [[options d] n]] registry IH]; intros matches;
    cbn [collect_matches filter fst snd].
  - now rewrite app_nil_r.
  - destruct (PyStr.mem part options); rewrite IH; cbn [map fst]; [|reflexivity].
    now rewrite <- app_assoc.
Qed.

Lemma options_in_entry (registry : list (string * (list string * string * string)))
      (c : string) (options : list string) (d n : string) :
  NoDup (map fst registry) -> In (c, (options, d, n)) registry ->
  options_in registry c = options.
Proof.
  induction registry as [|[c' [[o' d'] n']] registry IH]; cbn [map fst options_in];
    intros Hnd Hin; [contradiction|].
  inversion Hnd as [|? ? Hnin Hnd']; subst.
  destruct Hin as [E|Hin].
  - injection E as -> -> -> ->. now rewrite String.eqb_refl.
  - destruct (String.eqb_spec c' c) as [->|]; [|now apply IH].
    exfalso. apply Hnin. change c with (fst (c, (options, d, n))). now apply in_map.
Qed.

(** A match of [find_matches] names a category of the registry and a token
    that is legal for it. *)
Lemma find_matches_In (part c v : string) :
  In (c, v) (find_matches part) ->
  v = part /\ In c categories /\ In part (options_of c).
Proof.
  unfold find_matches. rewrite collect_matches_spec. cbn [app].
  intros H. apply in_map_iff in H as ([c' [[options d] n]] & E & Hin).
  cbn [fst] in E. injection E as -> ->.
  apply filter_In in Hin as [Hin Hmem]. cbn [fst snd] in Hmem.
  split; [reflexivity|]. split.
  - unfold categories. change c with (fst (c, (options, d, n))). now apply in_map.
  - unfold options_of. rewrite (options_in_entry _ _ _ _ _ categories_nodup Hin).
    now apply mem_In.
Qed.

Lemma sentinel_is_no_token (c : string) : In c categories -> ~ In "empty" (options_of c).
Proof.
  unfold categories; simpl. intros Hc Ht.
  repeat (destruct Hc as [<-|Hc];
          [simpl in Ht; repeat (destruct Ht as [Ht|Ht]; [discriminate Ht|]); exact Ht|]).
  exact Hc.
Qed.

(** One round of the token loop that goes on: the token has one match, its
    category held the sentinel, and the token is stored under it. *)
Lemma parse_parts_step (part : string) (rest : list string) (result r : dict) :
  parse_parts (part :: rest) result = Returned r ->
  exists c,
    find_matches part = [(c, part)] /\ In c categories /\ In part (options_of c) /\
    dict_get result c = Some "empty" /\
    parse_parts rest (dict_set result c part) = Returned r.
Proof.
  cbn [parse_parts]. intros H.
  destruct (1 <? List.length (find_matches part))%nat; [discriminate|].
  destruct (find_matches part) as [|[c v] [|? ?]] eqn:Hm; try discriminate.
  assert (Hin : In (c, v) (find_matches part)) by (rewrite Hm; simpl; auto).
  apply find_matches_In in Hin as (-> & Hc & Ht).
  unfold getitem in H. destruct (dict_get result c) as [current|] eqn:E;
    cbn [bind] in H; [|discriminate].
  destruct (current =? "empty") eqn:Ec; cbn [negb] in H; [|discriminate].
  apply String.eqb_eq in Ec. subst current. exists c. auto.
Qed.

Lemma well_formed_config_get (cfg : dict) (c : string) :
  well_formed_config cfg = true -> In c categories ->
  exists v, dict_get cfg c = Some v /\ (v = "empty" \/ In v (options_of c)).
Proof.
  unfold well_formed_config. rewrite forallb_forall. intros H Hc.
  specialize (H c Hc). destruct (dict_get cfg c) as [v|]; [|discriminate].
  exists v. split; [reflexivity|]. apply orb_true_iff in H as [H|H].
  - left. now apply String.eqb_eq.
  - right. now apply mem_In.
Qed.

Lemma well_formed_config_set (cfg : dict) (c t : string) :
  well_formed_config cfg = true -> In t (options_of c) ->
  well_formed_config (dict_set cfg c t) = true.
Proof.
  unfold well_formed_config. rewrite !forallb_forall. intros H Ht c' Hc'.
  destruct (String.eqb_spec c c') as [<-|Hne].
  - rewrite dict_get_set_same. apply mem_In in Ht. rewrite Ht. apply orb_true_r.
  - rewrite dict_get_set_other by assumption. now apply H.
Qed.

Lemma initial_result_well_formed : well_formed_config initial_result = true.
Proof. reflexivity. Qed.

(** The token loop keeps every value the sentinel or a legal token of its
    category. *)
Lemma parse_parts_well_formed (parts : list string) :
  forall result r,
    well_formed_config result = true -> parse_parts parts result = Returned r ->
    well_formed_config r = true.
Proof.
  induction parts as [|part rest IH]; intros result r Hwf H.
  - cbn in H. now injection H as <-.
  - apply parse_parts_step in H as (c & _ & _ & Ht & _ & H).
    apply (IH _ _ (well_formed_config_set _ _ _ Hwf Ht) H).
Qed.

Lemma parse_preset_name_well_formed (preset_name : string) (cfg : dict) :
  parse_preset_name preset_name = Returned cfg -> well_formed_config cfg = true.
Proof.
  intros H. apply parse_preset_name_inv in H as (r & p & Hr & _ & ->).
  apply (parse_parts_well_formed _ _ _ initial_result_well_formed) in Hr.
  destruct (p =? "win"); [|assumption].
  apply well_formed_config_set; [assumption | simpl; auto].
Qed.

(** The two checks a returned configuration has passed. *)
Lemma parse_preset_name_checks (preset_name : string) (cfg : dict) :
  parse_preset_name preset_name = Returned cfg ->
  (dict_get cfg "platform" = Some "win" -> dict_get cfg "compiler" = Some "empty") /\
  (dict_get cfg "lib_type" = Some "static" -> dict_get cfg "build_python" <> Some "python").
Proof.
  intros H. pose proof (parse_preset_name_inv _ _ H) as (r & p & Hr & Hp & Hcfg).
  unfold parse_preset_name in H. fold initial_result in H.
  destruct (PyStr.split "-" preset_name) as [|p0 ps]; [discriminate|].
  rewrite Hr in H. cbn [bind] in H. unfold getitem in H at 1. rewrite Hp in H.
  cbn [bind] in H. rewrite <- Hcfg in H. unfold getitem in H.
  destruct (dict_get cfg "platform") as [p2|]; cbn [bind] in H; [|discriminate].
  split.
  - intros E. injection E as ->. cbn [String.eqb Ascii.eqb Bool.eqb] in H.
    destruct (dict_get cfg "compiler") as [cc|]; cbn [bind] in H; [|discriminate].
    destruct (cc =? "empty") eqn:Ec; cbn [negb] in H; [|discriminate].
    apply String.eqb_eq in Ec. now subst cc.
  - intros El Eb.
    destruct (p2 =? "win").
    + destruct (dict_get cfg "compiler") as [cc|]; cbn [bind] in H; [|discriminate].
      destruct (negb (cc =? "empty")); [discriminate|].
      rewrite El in H. cbn [bind] in H. cbn [String.eqb Ascii.eqb Bool.eqb] in H.
      rewrite Eb in H. cbn in H. discriminate.
    + cbn [bind] in H. rewrite El in H. cbn [bind] in H.
      cbn [String.eqb Ascii.eqb Bool.eqb] in H.
      rewrite Eb in H. cbn in H. discriminate.
Qed.

(** With every category among its keys, the token loop raises [ValueError]s
    only. *)
Lemma parse_parts_value_error (parts : list string) :
  forall result e, dict_keys result = categories ->
    parse_parts parts result = Raised e -> exists ve, e = ValueError ve.
Proof.
  induction parts as [|part rest IH]; cbn [parse_parts]; intros result e Hk H;
    [discriminate|].
  destruct (1 <? List.length (find_matches part))%nat.
  { injection H as <-. eauto. }
  destruct (find_matches part) as [|[c v] [|? ?]] eqn:Hm; try (injection H as <-; eauto).
  assert (Hin : In (c, v) (find_matches part)) by (rewrite Hm; simpl; auto).
  apply find_matches_In in Hin as (_ & Hc & _).
  rewrite <- Hk in Hc. apply dict_get_in_keys in Hc.
  unfold getitem in H. destruct (dict_get result c) as [current|] eqn:E;
    [|congruence]. cbn [bind] in H.
  destruct (negb (current =? "empty")).
  - injection H as <-. eauto.
  - apply IH in H; [assumption|]. rewrite dict_keys_set; congruence.
Qed.

Lemma category_get (d : dict) (c : string) :
  dict_keys d = categories -> In c categories -> exists v, dict_get d c = Some v.
Proof.
  intros Hk Hc. rewrite <- Hk in Hc. apply dict_get_in_keys in Hc.
  destruct (dict_get d c) as [v|]; [eauto | congruence].
Qed.

(** The parser returns a configuration or raises a [ValueError]. *)
Lemma parse_preset_name_outcome (preset_name : string) :
  (exists cfg, parse_preset_name preset_name = Returned cfg) \/
  (exists ve, parse_preset_name preset_name = Raised (ValueError ve)).
Proof.
  unfold parse_preset_name. fold initial_result.
  destruct (PyStr.split "-" preset_name) as [|p0 ps]; [right; eauto|].
  destruct (parse_parts (p0 :: ps) initial_result) as [r|e|code] eqn:Hr; cbn [bind].
  - pose proof (parse_parts_keys _ _ _ Hr) as Hk. rewrite initial_result_keys in Hk.
    destruct (category_get r "platform" Hk) as [p Hp]; [unfold categories; simpl; auto|].
    unfold getitem. rewrite Hp. cbn [bind].
    set (r' := if p =? "win" then dict_set r "generator" "msvc" else r).
    assert (Hk' : dict_keys r' = categories).
    { unfold r'. destruct (p =? "win"); [|assumption].
      rewrite dict_keys_set; [assumption|]. apply dict_get_in_keys. rewrite Hk.
      unfold categories; simpl; auto. }
    destruct (category_get r' "platform" Hk') as [p2 Hp2]; [unfold categories; simpl; auto|].
    destruct (category_get r' "compiler" Hk') as [cc Hcc]; [unfold categories; simpl; auto|].
    destruct (category_get r' "lib_type" Hk') as [l Hl]; [unfold categories; simpl; auto 10|].
    destruct (category_get r' "build_python" Hk') as [b Hb];
      [unfold categories; simpl; auto 10|].
    rewrite Hp2, Hcc, Hl, Hb.
    cbn [bind].
    destruct (p2 =? "win"); cbn [bind]; [destruct (negb (cc =? "empty")); cbn [bind]|];
      try (right; eexists; reflexivity);
      (destruct (l =? "static"); cbn [bind]; [destruct (b =? "python"); cbn [bind]|]);
      first [left; eexists; reflexivity | right; eexists; reflexivity].
  - apply parse_parts_value_error in Hr as [ve ->]; [right; eauto|].
    apply initial_result_keys.
  - now apply parse_parts_no_exit in Hr.
Qed.

Lemma dict_set_comm (d : dict) (k1 k2 v1 v2 : string) :
  k1 <> k2 -> dict_get d k1 <> None -> dict_get d k2 <> None ->
  dict_set (dict_set d k1 v1) k2 v2 = dict_set (dict_set d k2 v2) k1 v1.
Proof.
  intros Hne. induction d as [|[k v] d IH]; cbn [dict_get dict_set]; intros H1 H2.
  - congruence.
  - destruct (k =? k1) eqn:E1; destruct (k =? k2) eqn:E2; cbn [dict_set].
    + apply String.eqb_eq in E1, E2. congruence.
    + rewrite E1, E2. reflexivity.
    + rewrite E1, E2. reflexivity.
    + rewrite E1, E2. f_equal. now apply IH.
Qed.

(** The converse of [parse_parts_step]. *)
Lemma parse_parts_store (part c : string) (rest : list string) (result : dict) :
  find_matches part = [(c, part)] -> dict_get result c = Some "empty" ->
  parse_parts (part :: rest) result = parse_parts rest (dict_set result c part).
Proof.
  intros Hm Hc. cbn [parse_parts]. rewrite Hm. cbn [List.length Nat.ltb Nat.leb].
  unfold getitem. rewrite Hc. cbn [bind]. now rewrite String.eqb_refl.
Qed.

Lemma stored_token_not_sentinel (c t : string) :
  In c categories -> In t (options_of c) -> t <> "empty".
Proof. intros Hc Ht ->. now apply (sentinel_is_no_token c). Qed.

(** A successful run of the token loop does not depend on the order of the
    tokens. *)
Lemma parse_parts_permutation (parts parts' : list string) :
  Permutation parts parts' ->
  forall result r, parse_parts parts result = Returned r ->
                   parse_parts parts' result = Returned r.
Proof.
  induction 1 as [|x l l' _ IH|x y l|l l' l'' _ IH1 _ IH2]; intros result r H.
  - exact H.
  - apply parse_parts_step in H as (c & Hm & _ & _ & Hc & H).
    rewrite (parse_parts_store _ _ _ _ Hm Hc). now apply IH.
  - apply parse_parts_step in H as (cy & Hmy & Hcy & Hty & Hy & H).
    apply parse_parts_step in H as (cx & Hmx & Hcx & Htx & Hx & H).
    assert (Hne : cy <> cx).
    { intros ->. rewrite dict_get_set_same in Hx. injection Hx as Hx.
      now apply (stored_token_not_sentinel cx y). }
    rewrite dict_get_set_other in Hx by assumption.
    rewrite (parse_parts_store _ _ _ _ Hmx Hx).
    rewrite (parse_parts_store y cy).
    + rewrite dict_set_comm; [exact H | now apply not_eq_sym | congruence | congruence].
    + exact Hmy.
    + rewrite dict_get_set_other; [exact Hy | now apply not_eq_sym].
  - apply IH2. now apply IH1.
Qed.

Lemma split_app (sep : ascii) (a rest : string) :
  PyStr.split sep (a ++ String sep rest)%string = PyStr.split sep a ++ PyStr.split sep rest.
Proof.
  induction a as [|c a IH]; cbn [append PyStr.split].
  - now rewrite Ascii.eqb_refl.
  - rewrite IH. destruct (Ascii.eqb c sep); [reflexivity|].
    destruct (PyStr.split sep a) as [|w ws] eqn:E; [now apply split_not_nil in E|].
    reflexivity.
Qed.

(** Splitting a joined name gives the tokens of its parts. *)
Lemma split_join_parts (sep : ascii) (parts : list string) :
  parts <> [] ->
  PyStr.split sep (PyStr.join (String sep "") parts) = flat_map (PyStr.split sep) parts.
Proof.
  unfold PyStr.join. induction parts as [|x [|y l] IH]; intros Hne.
  - congruence.
  - cbn. now rewrite app_nil_r.
  - change (concat (String sep "") (x :: y :: l))
      with (x ++ String sep (concat (String sep "") (y :: l)))%string.
    rewrite split_app, IH by discriminate. reflexivity.
Qed.

(** The parser's result is a function of what the token loop returns. *)
Lemma parse_preset_name_same_parts (name1 name2 : string) (r : dict) :
  parse_parts (PyStr.split "-" name1) initial_result = Returned r ->
  parse_parts (PyStr.split "-" name2) initial_result = Returned r ->
  parse_preset_name name1 = parse_preset_name name2.
Proof.
  intros H1 H2. unfold parse_preset_name. fold initial_result.
  destruct (PyStr.split "-" name1) as [|a1 l1] eqn:E1; [now apply split_not_nil in E1|].
  destruct (PyStr.split "-" name2) as [|a2 l2] eqn:E2; [now apply split_not_nil in E2|].
  now rewrite H1, H2.
Qed.

Lemma parse_preset_name_parts (preset_name : string) (cfg : dict) :
  parse_preset_name preset_name = Returned cfg ->
  exists r, parse_parts (PyStr.split "-" preset_name) initial_result = Returned r.
Proof. intros H. apply parse_preset_name_inv in H as (r & _ & Hr & _). eauto. Qed.

(** Every token of a name that parses is a legal token of a category. *)
Lemma parse_parts_tokens_legal (parts : list string) :
  forall result r, parse_parts parts result = Returned r ->
    forall t, In t parts -> exists c, In c categories /\ In t (options_of c).
Proof.
  induction parts as [|part rest IH]; intros result r H t Ht; [contradiction|].
  apply parse_parts_step in H as (c & _ & Hc & Hp & _ & H).
  destruct Ht as [<-|Ht]; [eauto | now apply (IH _ _ H)].
Qed.

(** Once a category holds a token, the loop cannot get past another token
    of that category. *)
Lemma parse_parts_locked (c v t : string) (parts : list string) :
  In c categories -> In t (options_of c) -> v <> "empty" ->
  forall result r, dict_get result c = Some v -> In t parts ->
                   parse_parts parts result <> Returned r.
Proof.
  intros Hc Ht Hv. induction parts as [|part rest IH]; intros result r Hget Hin H;
    [contradiction|].
  apply parse_parts_step in H as (c0 & Hm & Hc0 & Hp & Hempty & H).
  destruct (String.eqb_spec c0 c) as [->|Hne].
  - rewrite Hget in Hempty. congruence.
  - destruct Hin as [->|Hin].
    + destruct (legal_token_matches c t Hc Ht) as [Hmt _]. congruence.
    + apply (IH (dict_set result c0 part) r); [|assumption|assumption].
      now rewrite dict_get_set_other.
Qed.

Lemma parse_parts_app (l1 l2 : list string) :
  forall result r, parse_parts (l1 ++ l2) result = Returned r ->
    exists r1, parse_parts l1 result = Returned r1 /\ parse_parts l2 r1 = Returned r.
Proof.
  induction l1 as [|part l1 IH]; intros result r H.
  - exists result. auto.
  - change ((part :: l1) ++ l2) with (part :: (l1 ++ l2)) in H.
    apply parse_parts_step in H as (c & Hm & _ & _ & Hc & H).
    apply IH in H as (r1 & H1 & H2). exists r1. split; [|assumption].
    now rewrite (parse_parts_store _ _ _ _ Hm Hc).
Qed.

(** ** Names, configurations and directory names *)

Lemma value_of_set_same (d : dict) (c v : string) : value_of (dict_set d c v) c = v.
Proof. unfold value_of. now rewrite dict_get_set_same. Qed.

Lemma value_of_set_other (d : dict) (c c' v : string) :
  c <> c' -> value_of (dict_set d c v) c' = value_of d c'.
Proof. intros H. unfold value_of. now rewrite dict_get_set_other. Qed.

Lemma flat_map_ext_in {A B : Type} (f g : A -> list B) (l : list A) :
  (forall a, In a l -> f a = g a) -> flat_map f l = flat_map g l.
Proof.
  induction l as [|a l IH]; intros H; [reflexivity|].
  cbn [flat_map]. rewrite (H a) by (simpl; auto). f_equal.
  apply IH. intros b Hb. apply H. simpl; auto.
Qed.

(** Storing a token under a category that held the sentinel adds that token
    to the non-sentinel tokens. *)
Lemma chosen_tokens_store (d : dict) (c part : string) (cs : list string) :
  NoDup cs -> In c cs -> value_of d c = "empty" -> part <> "empty" ->
  Permutation
    (part :: flat_map (fun c => if value_of d c =? "empty" then [] else [value_of d c]) cs)
    (flat_map (fun c' => if value_of (dict_set d c part) c' =? "empty" then []
                         else [value_of (dict_set d c part) c']) cs).
Proof.
  intros Hnd Hin Hd Hpart. induction cs as [|h cs IH]; [contradiction|].
  inversion Hnd as [|? ? Hnin Hnd']; subst. cbn [flat_map].
  destruct (String.eqb_spec h c) as [->|Hne].
  - rewrite Hd, value_of_set_same. apply String.eqb_neq in Hpart. rewrite Hpart.
    cbn [String.eqb app].
    rewrite (flat_map_ext_in
               (fun c' => if value_of (dict_set d c part) c' =? "empty" then []
                          else [value_of (dict_set d c part) c'])
               (fun c => if value_of d c =? "empty" then [] else [value_of d c])).
    + apply Permutation_refl.
    + intros a Ha. rewrite value_of_set_other; [reflexivity|]. intros ->. contradiction.
  - rewrite (value_of_set_other d c h part) by (now apply not_eq_sym).
    destruct Hin as [->|Hin]; [congruence|].
    eapply Permutation_trans; [apply Permutation_middle|].
    apply Permutation_app_head. now apply IH.
Qed.

(** The non-sentinel tokens after the token loop are those before it and
    the tokens of the name, each once. *)
Lemma parse_parts_chosen_tokens (parts : list string) :
  forall result r, parse_parts parts result = Returned r ->
                   Permutation (parts ++ chosen_tokens result) (chosen_tokens r).
Proof.
  induction parts as [|part rest IH]; intros result r H.
  - cbn in H. injection H as <-. apply Permutation_refl.
  - apply parse_parts_step in H as (c & _ & Hc & Ht & Hempty & H).
    apply IH in H. eapply Permutation_trans; [|exact H].
    change ((part :: rest) ++ chosen_tokens result)
      with (part :: (rest ++ chosen_tokens result)).
    eapply Permutation_trans; [apply Permutation_middle|].
    apply Permutation_app_head. unfold chosen_tokens.
    apply chosen_tokens_store; [apply categories_nodup | assumption | |].
    + unfold value_of. now rewrite Hempty.
    + now apply (stored_token_not_sentinel c).
Qed.

Lemma permutation_filter {A : Type} (f : A -> bool) (l l' : list A) :
  Permutation l l' -> Permutation (filter f l) (filter f l').
Proof.
  induction 1 as [|x l l' _ IH|x y l|l l' l'' _ IH1 _ IH2]; cbn [filter].
  - constructor.
  - destruct (f x); [now constructor | assumption].
  - destruct (f x), (f y); try apply Permutation_refl. constructor.
  - eapply Permutation_trans; eassumption.
Qed.

Lemma permutation_partition {A : Type} (f : A -> bool) (l : list A) :
  Permutation l (filter f l ++ filter (fun x => negb (f x)) l).
Proof.
  induction l as [|x l IH]; cbn [filter]; [constructor|].
  destruct (f x); cbn [negb app].
  - now constructor.
  - eapply Permutation_trans; [|apply Permutation_middle]. now constructor.
Qed.

(** Among the legal tokens, the generator's are those of no other
    category. *)
Lemma generator_tokens (c t : string) :
  In c categories -> In t (options_of c) ->
  PyStr.mem t (options_of "generator") = (c =? "generator").
Proof.
  unfold categories; simpl. intros Hc Ht.
  repeat (destruct Hc as [<-|Hc];
          [simpl in Ht; repeat (destruct Ht as [<-|Ht]; [reflexivity|]); contradiction|]).
  contradiction.
Qed.

(** Dropping the generator tokens from the non-sentinel tokens of a
    well-formed configuration drops the generator's value. *)
Lemma without_generator_chosen (d : dict) (cs : list string) :
  well_formed_config d = true -> incl cs categories ->
  without_generator
    (flat_map (fun c => if value_of d c =? "empty" then [] else [value_of d c]) cs) =
  flat_map (fun c => if c =? "generator" then []
                     else if value_of d c =? "empty" then [] else [value_of d c]) cs.
Proof.
  intros Hwf. unfold without_generator.
  induction cs as [|c cs IH]; intros Hincl; [reflexivity|].
  cbn [flat_map]. rewrite filter_app, IH by (intros x Hx; apply Hincl; simpl; auto).
  f_equal.
  assert (Hc : In c categories) by (apply Hincl; simpl; auto).
  destruct (well_formed_config_get d c Hwf Hc) as (v & Hv & Hlegal).
  unfold value_of. rewrite Hv.
  destruct (String.eqb_spec v "empty") as [->|Hne].
  - now destruct (c =? "generator").
  - destruct Hlegal as [->|Hlegal]; [congruence|].
    cbn [filter]. rewrite (generator_tokens c v Hc Hlegal).
    now destruct (c =? "generator").
Qed.

Lemma dict_set_twice (d : dict) (k v1 v2 : string) :
  dict_set (dict_set d k v1) k v2 = dict_set d k v2.
Proof.
  induction d as [|[k' v'] d IH]; cbn [dict_set].
  - now rewrite String.eqb_refl.
  - destruct (k' =? k) eqn:E; cbn [dict_set]; rewrite E; [reflexivity | now rewrite IH].
Qed.

Lemma chosen_tokens_initial : chosen_tokens initial_result = [].
Proof. reflexivity. Qed.

Lemma generator_is_category : In "generator" categories.
Proof. unfold categories; simpl; auto. Qed.

(** The tokens of a name that parses are, each once, the tokens the build
    directory name is made of; under platform ["win"] this holds of the
    tokens other than the generator's. *)
Lemma parsed_build_dir_tokens (preset_name : string) (cfg : dict) :
  parse_preset_name preset_name = Returned cfg ->
  Permutation (build_dir_tokens_of_name cfg preset_name) (spec_build_dir_tokens cfg).
Proof.
  intros H. pose proof (parse_preset_name_inv _ _ H) as (r & p & Hr & Hp & Hcfg).
  pose proof (parse_parts_chosen_tokens _ _ _ Hr) as Hperm.
  rewrite chosen_tokens_initial, app_nil_r in Hperm.
  pose proof (parse_parts_well_formed _ _ _ initial_result_well_formed Hr) as Hwf.
  unfold build_dir_tokens_of_name, spec_build_dir_tokens.
  destruct (p =? "win") eqn:Ep.
  - apply String.eqb_eq in Ep. subst p cfg.
    assert (Hplat : value_of (dict_set r "generator" "msvc") "platform" = "win").
    { rewrite value_of_set_other by discriminate. unfold value_of. now rewrite Hp. }
    rewrite Hplat. cbn [String.eqb Ascii.eqb Bool.eqb].
    eapply Permutation_trans; [apply permutation_filter; exact Hperm|].
    fold (without_generator (chosen_tokens r)). unfold chosen_tokens.
    rewrite (without_generator_chosen r categories Hwf (incl_refl _)).
    erewrite flat_map_ext_in; [apply Permutation_refl|].
    intros c _. cbn beta. rewrite andb_true_r.
    destruct (String.eqb_spec c "generator") as [->|Hne].
    + now rewrite value_of_set_same.
    + rewrite value_of_set_other by (now apply not_eq_sym).
      now destruct (value_of r c =? "empty").
  - subst cfg. assert (Hplat : value_of r "platform" = p).
    { unfold value_of. now rewrite Hp. }
    rewrite Hplat, Ep.
    erewrite flat_map_ext; [exact Hperm|].
    intros c. now rewrite andb_false_r.
Qed.

Lemma spec_build_dir_tokens_legal (cfg : dict) (t : string) :
  well_formed_config cfg = true -> In t (spec_build_dir_tokens cfg) ->
  exists c, In c categories /\ In t (options_of c).
Proof.
  intros Hwf Hin. unfold spec_build_dir_tokens in Hin.
  apply in_flat_map in Hin as (c & Hc & Hin).
  destruct (well_formed_config_get cfg c Hwf Hc) as (v & Hv & Hlegal).
  unfold value_of in Hin at 1 3. rewrite Hv in Hin.
  destruct (v =? "empty") eqn:Ev; [contradiction|].
  destruct ((c =? "generator") && (value_of cfg "platform" =? "win")); [contradiction|].
  destruct Hin as [<-|[]]. destruct Hlegal as [->|Hlegal]; [discriminate Ev|]. eauto.
Qed.

(** Splitting the build directory name of a parsed configuration gives back
    the tokens it was joined from. *)
Lemma split_build_dir_name (preset_name : string) (cfg : dict) :
  parse_preset_name preset_name = Returned cfg ->
  generate_build_dir_name cfg = Returned (PyStr.join "-" (spec_build_dir_tokens cfg)) /\
  PyStr.split "-" (PyStr.join "-" (spec_build_dir_tokens cfg)) = spec_build_dir_tokens cfg.
Proof.
  intros H. pose proof (parse_preset_name_well_formed _ _ H) as Hwf.
  split.
  { apply generate_build_dir_name_resolved. now apply well_formed_is_resolved. }
  change "-" with (String "-" ""). apply split_join.
  - intros Hnil. pose proof (parsed_build_dir_tokens _ _ H) as Hperm.
    rewrite Hnil in Hperm. apply Permutation_sym, Permutation_nil in Hperm.
    unfold build_dir_tokens_of_name in Hperm.
    destruct (value_of cfg "platform" =? "win") eqn:Ew.
    + apply String.eqb_eq in Ew.
      assert (Hin : In "win" (spec_build_dir_tokens cfg)).
      { unfold spec_build_dir_tokens. apply in_flat_map. exists "platform".
        split; [apply platform_is_category|]. rewrite Ew. simpl. auto. }
      now rewrite Hnil in Hin.
    + now apply split_not_nil in Hperm.
  - apply Forall_forall. intros t Ht.
    destruct (spec_build_dir_tokens_legal cfg t Hwf Ht) as (c & Hc & Hlegal).
    apply (legal_token_matches c t Hc Hlegal).
Qed.

(** A run of the token loop over generator tokens only changes nothing but
    the generator. *)
Lemma parse_parts_generator_only (parts : list string) :
  Forall (fun t => PyStr.mem t (options_of "generator") = true) parts ->
  forall result r, parse_parts parts result = Returned r ->
    dict_set r "generator" "msvc" = dict_set result "generator" "msvc" /\
    dict_get r "platform" = dict_get result "platform".
Proof.
  induction 1 as [|part rest Hgen _ IH]; intros result r H.
  - cbn in H. injection H as <-. auto.
  - apply parse_parts_step in H as (c & _ & Hc & Ht & _ & H).
    rewrite (generator_tokens c part Hc Ht) in Hgen. apply String.eqb_eq in Hgen. subst c.
    apply IH in H as [Hset Hplat]. split.
    + now rewrite Hset, dict_set_twice.
    + rewrite Hplat. now apply dict_get_set_other.
Qed.

Lemma parse_preset_name_win (name1 name2 : string) (r1 r2 : dict) :
  parse_parts (PyStr.split "-" name1) initial_result = Returned r1 ->
  parse_parts (PyStr.split "-" name2) initial_result = Returned r2 ->
  dict_get r1 "platform" = Some "win" -> dict_get r2 "platform" = Some "win" ->
  dict_set r1 "generator" "msvc" = dict_set r2 "generator" "msvc" ->
  parse_preset_name name1 = parse_preset_name name2.
Proof.
  intros H1 H2 Hp1 Hp2 Heq. unfold parse_preset_name. fold initial_result.
  destruct (PyStr.split "-" name1) as [|a1 l1] eqn:E1; [now apply split_not_nil in E1|].
  destruct (PyStr.split "-" name2) as [|a2 l2] eqn:E2; [now apply split_not_nil in E2|].
  rewrite H1, H2. cbn [bind]. unfold getitem at 1 6. rewrite Hp1, Hp2. cbn [bind].
  cbn [String.eqb Ascii.eqb Bool.eqb]. now rewrite Heq.
Qed.

(** The build directory name of a parsed configuration is a preset name for
    that very configuration. *)
Lemma build_dir_name_canonical (preset_name : string) (cfg : dict) :
  parse_preset_name preset_name = Returned cfg ->
  parse_preset_name (PyStr.join "-" (spec_build_dir_tokens cfg)) = Returned cfg.
Proof.
  intros H. rewrite <- H.
  pose proof (parse_preset_name_inv _ _ H) as (r & p & Hr & Hp & Hcfg).
  pose proof (parsed_build_dir_tokens _ _ H) as Hperm.
  destruct (split_build_dir_name _ _ H) as [_ Hsplit].
  unfold build_dir_tokens_of_name in Hperm.
  assert (Hplat : value_of cfg "platform" = p).
  { subst cfg. destruct (p =? "win").
    - rewrite value_of_set_other by discriminate. unfold value_of. now rewrite Hp.
    - unfold value_of. now rewrite Hp. }
  rewrite Hplat in Hperm. destruct (p =? "win") eqn:Ep.
  - apply String.eqb_eq in Ep. subst p.
    pose proof (permutation_partition
                  (fun t => negb (PyStr.mem t (options_of "generator")))
                  (PyStr.split "-" preset_name)) as Hpart.
    fold (without_generator (PyStr.split "-" preset_name)) in Hpart.
    pose proof (parse_parts_permutation _ _ Hpart _ _ Hr) as Hr'.
    apply parse_parts_app in Hr' as (r1 & Hr1 & Hgen).
    apply parse_parts_generator_only in Hgen as [Hset Hplat1].
    2:{ apply Forall_forall. intros t Ht. apply filter_In in Ht as [_ Ht].
        now apply negb_true_iff, negb_false_iff in Ht. }
    apply (parse_parts_permutation _ _ Hperm) in Hr1. rewrite <- Hsplit in Hr1.
    apply (parse_preset_name_win _ _ _ _ Hr1 Hr).
    + congruence.
    + exact Hp.
    + now symmetry.
  - pose proof (parse_parts_permutation _ _ Hperm _ _ Hr) as Hr'.
    rewrite <- Hsplit in Hr'.
    apply (parse_preset_name_same_parts _ _ r); assumption.
Qed.

(** ** Properties of the parser and of the directory names *)

(** X1: a configuration the parser returns never pairs platform ["win"]
    with a compiler, nor a static library with the python bindings. *)
Theorem parsed_config_respects_exclusivity (preset_name : string) (cfg : dict) :
  parse_preset_name preset_name = Returned cfg ->
  (value_of cfg "platform" = "win" -> value_of cfg "compiler" = "empty") /\
  ~ (value_of cfg "lib_type" = "static" /\ value_of cfg "build_python" = "python").
Proof.
  intros H. destruct (parse_preset_name_checks _ _ H) as [Hwin Hstatic].
  pose proof (keys_is_resolved cfg (parse_preset_name_keys _ _ H)) as Hres.
  assert (Hget : forall c, In c categories -> dict_get cfg c = Some (value_of cfg c))
    by (intros c Hc; now apply is_resolved_get).
  split.
  - intros Hp. rewrite (Hget "platform"), Hp in Hwin by (unfold categories; simpl; auto).
    specialize (Hwin eq_refl). unfold value_of. now rewrite Hwin.
  - intros [Hl Hb].
    rewrite (Hget "lib_type"), Hl in Hstatic by (unfold categories; simpl; auto 10).
    rewrite (Hget "build_python"), Hb in Hstatic by (unfold categories; simpl; auto 10).
    now apply Hstatic.
Qed.

Lemma parsed_config_respects_exclusivity_witness :
  exists cfg, parse_preset_name "win-st-shared-python" = Returned cfg /\
              value_of cfg "compiler" = "empty" /\ value_of cfg "lib_type" <> "static".
Proof.
  eexists. split; [reflexivity|].
  destruct (parsed_config_respects_exclusivity "win-st-shared-python" _ eq_refl)
    as [Hwin _].
  split; [apply Hwin; reflexivity | discriminate].
Defined.

(** X2: a configuration the parser returns has the categories for keys, in
    declaration order, and under each the sentinel or a legal token of that
    category. *)
Theorem parsed_config_is_well_formed (preset_name : string) (cfg : dict) :
  parse_preset_name preset_name = Returned cfg ->
  dict_keys cfg = categories /\
  forall c, In c categories ->
            exists v, dict_get cfg c = Some v /\ (v = "empty" \/ In v (options_of c)).
Proof.
  intros H. split; [now apply (parse_preset_name_keys preset_name)|].
  intros c Hc. apply well_formed_config_get; [|assumption].
  now apply (parse_preset_name_well_formed preset_name).
Qed.

Lemma parsed_config_is_well_formed_witness :
  exists cfg, parse_preset_name "linux-clang-st" = Returned cfg /\
              dict_keys cfg = categories.
Proof.
  eexists. split; [reflexivity|].
  apply (parsed_config_is_well_formed "linux-clang-st"). reflexivity.
Defined.

(** X3: the order of the tokens does not matter: when the name joined from
    some parts parses, the name joined from the same parts in any other
    order parses to the same configuration. *)
Theorem token_order_is_irrelevant (parts parts' : list string) (cfg : dict) :
  Permutation parts parts' ->
  parse_preset_name (PyStr.join "-" parts) = Returned cfg ->
  parse_preset_name (PyStr.join "-" parts') = Returned cfg.
Proof.
  intros Hperm H.
  assert (Hne : parts <> []) by (intros ->; discriminate H).
  assert (Hne' : parts' <> []).
  { intros ->. apply Permutation_sym, Permutation_nil in Hperm. contradiction. }
  rewrite <- H. destruct (parse_preset_name_parts _ _ H) as [r Hr].
  apply (parse_preset_name_same_parts _ _ r); [|exact Hr].
  change "-" with (String "-" "") in *.
  rewrite split_join_parts in * by assumption.
  apply (parse_parts_permutation (flat_map (PyStr.split "-") parts)); [|exact Hr].
  now apply Permutation_flat_map.
Qed.

Lemma token_order_is_irrelevant_witness :
  exists cfg, parse_preset_name "gcc-linux-st" = Returned cfg /\
              parse_preset_name "linux-gcc-st" = Returned cfg.
Proof.
  eexists. split; [reflexivity|].
  apply (token_order_is_irrelevant ["gcc"; "linux"; "st"] ["linux"; "gcc"; "st"]);
    [apply perm_swap | reflexivity].
Defined.

(** How [generate_preset] ends, by what the parser does. *)
Lemma generate_preset_outcome (preset_name : string) :
  (exists cfg doc, parse_preset_name preset_name = Returned cfg /\
                   generate_preset preset_name = ([], Returned doc)) \/
  (exists ve, parse_preset_name preset_name = Raised (ValueError ve) /\
              generate_preset preset_name =
              ([PrintParseError ve; PrintFormatExamples], Exited 1)).
Proof.
  destruct (parse_preset_name_outcome preset_name) as [[cfg H]|[ve H]].
  - left. destruct (generate_preset_parsed _ _ H) as (doc & Hd & _). eauto.
  - right. exists ve. split; [assumption|]. unfold generate_preset. now rewrite H.
Qed.

(** X4: [generate_preset] never raises: it returns a document, printing
    nothing, exactly when the name parses, and otherwise prints the parser's
    error with the format examples and leaves through [sys.exit(1)]. *)
Theorem generate_preset_returns_or_exits (preset_name : string) :
  (exists doc, generate_preset preset_name = ([], Returned doc) /\
               parses preset_name = true) \/
  (exists ve, generate_preset preset_name =
              ([PrintParseError ve; PrintFormatExamples], Exited 1) /\
              parse_preset_name preset_name = Raised (ValueError ve) /\
              parses preset_name = false).
Proof.
  destruct (generate_preset_outcome preset_name) as [(cfg & doc & H & Hd)|(ve & H & Hd)].
  - left. exists doc. split; [assumption|]. unfold parses. now rewrite H.
  - right. exists ve. repeat split; try assumption. unfold parses. now rewrite H.
Qed.

Lemma find_matches_none (t : string) :
  find_matches t = [] -> forall c, In c categories -> ~ In t (options_of c).
Proof.
  intros Hm c Hc Ht. destruct (legal_token_matches c t Hc Ht) as [Hm' _]. congruence.
Qed.

(** X5: a name holding a token that is legal for no category does not
    parse: [generate_preset] prints an error and exits with status 1. *)
Theorem unknown_token_exits (preset_name t : string) :
  In t (PyStr.split "-" preset_name) ->
  (forall c, In c categories -> ~ In t (options_of c)) ->
  exists ve, generate_preset preset_name =
             ([PrintParseError ve; PrintFormatExamples], Exited 1).
Proof.
  intros Hin Hunknown.
  destruct (generate_preset_outcome preset_name) as [(cfg & doc & H & _)|(ve & _ & Hd)];
    [|eauto].
  destruct (parse_preset_name_parts _ _ H) as [r Hr].
  destruct (parse_parts_tokens_legal _ _ _ Hr t Hin) as (c & Hc & Ht).
  now apply Hunknown in Ht.
Qed.

Lemma unknown_token_exits_witness :
  exists ve, generate_preset "linux-icc-st" =
             ([PrintParseError ve; PrintFormatExamples], Exited 1).
Proof.
  apply (unknown_token_exits "linux-icc-st" "icc"); [simpl; auto|].
  intros c Hc Ht. apply (find_matches_none "icc" eq_refl c Hc Ht).
Defined.

(** X6: each category takes one token: a name holding two tokens that are
    legal for the same category does not parse, and [generate_preset] exits
    with status 1. *)
Theorem duplicate_category_exits (preset_name c t1 t2 : string)
        (l1 l2 l3 : list string) :
  PyStr.split "-" preset_name = l1 ++ t1 :: l2 ++ t2 :: l3 ->
  In c categories -> In t1 (options_of c) -> In t2 (options_of c) ->
  exists ve, generate_preset preset_name =
             ([PrintParseError ve; PrintFormatExamples], Exited 1).
Proof.
  intros Hsplit Hc Ht1 Ht2.
  destruct (generate_preset_outcome preset_name) as [(cfg & doc & H & _)|(ve & _ & Hd)];
    [|eauto].
  destruct (parse_preset_name_parts _ _ H) as [r Hr]. rewrite Hsplit in Hr.
  apply parse_parts_app in Hr as (r1 & _ & Hr).
  apply parse_parts_step in Hr as (c' & Hm & _ & _ & _ & Hr).
  destruct (legal_token_matches c t1 Hc Ht1) as [Hm1 _].
  rewrite Hm1 in Hm. injection Hm as <-.
  exfalso. apply (parse_parts_locked c t1 t2 (l2 ++ t2 :: l3) Hc Ht2
                    (stored_token_not_sentinel c t1 Hc Ht1)
                    (dict_set r1 c t1) r).
  - apply dict_get_set_same.
  - apply in_or_app. right. simpl. auto.
  - exact Hr.
Qed.

Lemma duplicate_category_exits_witness :
  exists ve, generate_preset "linux-gcc-st-clang" =
             ([PrintParseError ve; PrintFormatExamples], Exited 1).
Proof.
  apply (duplicate_category_exits "linux-gcc-st-clang" "compiler" "gcc" "clang"
                                  ["linux"] ["st"] []);
    [reflexivity | unfold categories; simpl; auto | simpl; auto | simpl; auto].
Defined.



(** X8: the build directory name of a parsed configuration is itself a
    preset name, and it parses to that same configuration. *)
Theorem build_dir_name_reparses (preset_name : string) (cfg : dict) :
  parse_preset_name preset_name = Returned cfg ->
  exists b, generate_build_dir_name cfg = Returned b /\
            parse_preset_name b = Returned cfg.
Proof.
  intros H. destruct (split_build_dir_name _ _ H) as [Hb _].
  eexists. split; [exact Hb|]. now apply (build_dir_name_canonical preset_name).
Qed.

Lemma build_dir_name_reparses_witness :
  exists cfg b,
    parse_preset_name "znver3-win-ninja-st" = Returned cfg /\
    generate_build_dir_name cfg = Returned b /\
    parse_preset_name b = Returned cfg.
Proof.
  eexists.
  destruct (build_dir_name_reparses "znver3-win-ninja-st" _ eq_refl) as (b & Hb & Hp).
  exists b. split; [reflexivity|]. split; [exact Hb | exact Hp].
Defined.

(** X9: two parsed configurations that differ have different build
    directory names. *)
Theorem build_dir_names_distinct (name1 name2 : string) (cfg1 cfg2 : dict) :
  parse_preset_name name1 = Returned cfg1 ->
  parse_preset_name name2 = Returned cfg2 ->
  generate_build_dir_name cfg1 = generate_build_dir_name cfg2 ->
  cfg1 = cfg2.
Proof.
  intros H1 H2 Heq.
  destruct (split_build_dir_name _ _ H1) as [Hb1 _].
  destruct (split_build_dir_name _ _ H2) as [Hb2 _].
  rewrite Hb1, Hb2 in Heq. injection Heq as Heq.
  pose proof (build_dir_name_canonical _ _ H1) as Hc1.
  pose proof (build_dir_name_canonical _ _ H2) as Hc2.
  rewrite Heq in Hc1. congruence.
Qed.

Lemma build_dir_names_distinct_witness :
  exists cfg1 cfg2,
    parse_preset_name "linux-gcc-st" = Returned cfg1 /\
    parse_preset_name "st-gcc-linux" = Returned cfg2 /\
    cfg1 = cfg2.
Proof.
  do 2 eexists. split; [reflexivity|]. split; [reflexivity|].
  apply (build_dir_names_distinct "linux-gcc-st" "st-gcc-linux"); reflexivity.
Defined.

(** Among the legal tokens, those of the skipped categories are in the
    skipped vocabulary and no other is. *)
Lemma skipped_tokens (c t : string) :
  In c categories -> In t (options_of c) ->
  PyStr.mem t skipped_vocabulary = PyStr.mem c skip_categories.
Proof.
  unfold categories; simpl. intros Hc Ht.
  repeat (destruct Hc as [<-|Hc];
          [simpl in Ht; repeat (destruct Ht as [<-|Ht]; [reflexivity|]); contradiction|]).
  contradiction.
Qed.

Lemma install_tokens_from_build_tokens (cfg : dict) (cs : list string) :
  well_formed_config cfg = true -> incl cs categories ->
  flat_map (fun c => if PyStr.mem c skip_categories then []
                     else if value_of cfg c =? "empty" then [] else [value_of cfg c]) cs =
  without_skipped
    (flat_map (fun c => if value_of cfg c =? "empty" then []
                        else if (c =? "generator") && (value_of cfg "platform" =? "win")
                             then []
                        else [value_of cfg c]) cs).
Proof.
  intros Hwf. unfold without_skipped.
  induction cs as [|c cs IH]; intros Hincl; [reflexivity|].
  cbn [flat_map]. rewrite filter_app, <- IH by (intros x Hx; apply Hincl; simpl; auto).
  f_equal.
  assert (Hc : In c categories) by (apply Hincl; simpl; auto).
  destruct (well_formed_config_get cfg c Hwf Hc) as (v & Hv & Hlegal).
  assert (Hval : value_of cfg c = v) by (unfold value_of; now rewrite Hv).
  destruct (value_of cfg "platform" =? "win") eqn:Ew; rewrite Hval;
    (destruct (v =? "empty") eqn:Ev;
     [now destruct (PyStr.mem c skip_categories)|]);
    (destruct Hlegal as [->|Hlegal]; [discriminate Ev|]);
    pose proof (skipped_tokens c v Hc Hlegal) as Hs;
    (destruct (c =? "generator") eqn:Eg; cbn [andb filter];
     [apply String.eqb_eq in Eg; subst c | ]);
    rewrite ?Hs; try reflexivity;
    now destruct (PyStr.mem c skip_categories).
Qed.

(** X10: for a configuration holding legal tokens or the sentinel, the
    install directory name is the build directory name with the tokens of
    the skipped categories taken out. *)
Theorem install_dir_name_from_build_dir_name (cfg : dict) :
  well_formed_config cfg = true ->
  exists b i,
    generate_build_dir_name cfg = Returned b /\
    generate_install_dir_name cfg = Returned i /\
    i = PyStr.join "-" (without_skipped (PyStr.split "-" b)).
Proof.
  intros Hwf. pose proof (well_formed_is_resolved cfg Hwf) as Hres.
  do 2 eexists. split; [now apply generate_build_dir_name_resolved|].
  split; [now apply generate_install_dir_name_resolved|].
  unfold spec_install_dir_tokens.
  rewrite (install_tokens_from_build_tokens cfg categories Hwf (incl_refl _)).
  fold (spec_build_dir_tokens cfg).
  destruct (spec_build_dir_tokens cfg) as [|t0 ts] eqn:Htoks; [reflexivity|].
  rewrite <- Htoks. change "-" with (String "-" "") at 3.
  rewrite split_join; [reflexivity | rewrite Htoks; discriminate |].
  apply Forall_forall. intros t Ht.
  destruct (spec_build_dir_tokens_legal cfg t Hwf Ht) as (c & Hc & Hlegal).
  apply (legal_token_matches c t Hc Hlegal).
Qed.

Lemma install_dir_name_from_build_dir_name_witness :
  exists b i,
    generate_build_dir_name cfg_win = Returned b /\
    generate_install_dir_name cfg_win = Returned i /\
    b = "win-st-lp64-shared-python-znver3-doc" /\ i = "win-znver3".
Proof.
  destruct (install_dir_name_from_build_dir_name cfg_win) as (b & i & Hb & Hi & Heq);
    [reflexivity|].
  exists b, i. split; [exact Hb|]. split; [exact Hi|].
  assert (E : b = "win-st-lp64-shared-python-znver3-doc").
  { cut (Returned b = Returned "win-st-lp64-shared-python-znver3-doc").
    - intros E. now injection E.
    - rewrite <- Hb. reflexivity. }
  split; [exact E|]. rewrite Heq, E. reflexivity.
Defined.

(** ** Files: the single-preset path *)

Section FileProofs.

Variable io_fault : world -> string -> option exn.

(** What [update_includes_file] does, by the state it finds. *)
Lemma update_includes_file_run (preset_name : string) (w : world) :
  update_includes_file io_fault preset_name w =
  match io_fault w "includes.json" with
  | Some e => (w, [], Raised e)
  | None =>
      let preset_file := (preset_name ++ ".json")%string in
      let includes := match includes_json w with Some l => l | None => [] end in
      if PyStr.mem preset_file includes
      then (w, [PrintAlready preset_file], Returned tt)
      else ({| preset_files := preset_files w;
               includes_json := Some (includes ++ [preset_file]) |},
            [PrintAdded preset_file], Returned tt)
  end.
Proof.
  unfold update_includes_file, io_bind, open_file, print.
  destruct (io_fault w "includes.json"); [reflexivity|].
  destruct (includes_json w) as [l|] eqn:E; cbn [preset_files includes_json app].
  - destruct (PyStr.mem (preset_name ++ ".json") l); reflexivity.
  - reflexivity.
Qed.

(** X11: when [update_includes_file] returns, the preset files are as they
    were and [includes.json] lists the preset's file: it was listed already
    and the list is unchanged, or it is appended at the end; a list without
    repetition stays so; and registering the same preset again changes
    nothing and reports the file as already there. *)
Theorem update_includes_file_registers (preset_name : string) (w w1 : world)
        (out1 : list line) :
  update_includes_file io_fault preset_name w = (w1, out1, Returned tt) ->
  let preset_file := (preset_name ++ ".json")%string in
  let before := match includes_json w with Some l => l | None => [] end in
  preset_files w1 = preset_files w /\
  (exists after,
      includes_json w1 = Some after /\ In preset_file after /\
      ((In preset_file before /\ after = before /\ out1 = [PrintAlready preset_file]) \/
       (~ In preset_file before /\ after = before ++ [preset_file] /\
        out1 = [PrintAdded preset_file])) /\
      (NoDup before -> NoDup after)) /\
  (io_fault w1 "includes.json" = None ->
   update_includes_file io_fault preset_name w1 =
   (w1, [PrintAlready preset_file], Returned tt)).
Proof.
  intros H preset_file before. rewrite update_includes_file_run in H.
  destruct (io_fault w "includes.json"); [discriminate|]. cbv zeta in H.
  fold preset_file before in H.
  destruct (PyStr.mem preset_file before) eqn:Hmem.
  - injection H as <- <-. apply mem_In in Hmem.
    assert (Hsome : includes_json w = Some before).
    { unfold before in *. destruct (includes_json w); [reflexivity | contradiction]. }
    split; [reflexivity|]. split.
    + exists before. repeat split; auto.
    + intros Hf. rewrite update_includes_file_run, Hf. cbv zeta.
      fold preset_file. rewrite Hsome. apply mem_In in Hmem. now rewrite Hmem.
  - injection H as <- <-. cbn [preset_files includes_json].
    assert (Hnin : ~ In preset_file before).
    { intros Hin. apply mem_In in Hin. congruence. }
    split; [reflexivity|]. split.
    + exists (before ++ [preset_file]). split; [reflexivity|]. split.
      * apply in_or_app. right. simpl. auto.
      * split; [right; auto|]. intros Hnd.
        apply NoDup_app; [assumption | repeat constructor; simpl; tauto |].
        intros x Hx [<-|[]]. contradiction.
    + intros Hf. rewrite update_includes_file_run, Hf. cbv zeta.
      cbn [includes_json]. fold preset_file.
      assert (Hin : PyStr.mem preset_file (before ++ [preset_file]) = true).
      { apply mem_In, in_or_app. right. simpl. auto. }
      now rewrite Hin.
Qed.

End FileProofs.

Lemma update_includes_file_registers_witness :
  exists w1, update_includes_file no_fault "linux-gcc-st" empty_world =
             (w1, [PrintAdded "linux-gcc-st.json"], Returned tt) /\
             update_includes_file no_fault "linux-gcc-st" w1 =
             (w1, [PrintAlready "linux-gcc-st.json"], Returned tt).
Proof.
  eexists. split; [reflexivity|].
  destruct (update_includes_file_registers no_fault "linux-gcc-st" empty_world _ _ eq_refl)
    as (_ & _ & Hagain).
  apply Hagain. reflexivity.
Defined.

Section SinglePresetProofs.

Variable io_fault : world -> string -> option exn.

(** The single-preset path for a name that parses, by what the file
    operations do. *)
Lemma single_preset_run (preset_name : string) (doc : preset) (w : world) :
  generate_preset preset_name = ([], Returned doc) ->
  let output_file := (preset_name ++ ".json")%string in
  let w1 := {| preset_files := (output_file, doc) :: preset_files w;
               includes_json := includes_json w |} in
  single_preset io_fault preset_name w =
  match io_fault w output_file with
  | Some e => (w, [], Raised e)
  | None =>
      match update_includes_file io_fault preset_name w1 with
      | (w2, out2, Returned _) =>
          (w2, PrintGeneratedFile output_file :: out2, Returned output_file)
      | (w2, out2, Raised e) => (w2, PrintGeneratedFile output_file :: out2, Raised e)
      | (w2, out2, Exited code) =>
          (w2, PrintGeneratedFile output_file :: out2, Exited code)
      end
  end.
Proof.
  intros Hd output_file w1.
  unfold single_preset, io_bind, open_file, print, io_ret. rewrite Hd. cbn [fst snd].
  fold output_file. destruct (io_fault w output_file); [reflexivity|].
  fold w1. destruct (update_includes_file io_fault preset_name w1) as [[w2 out2] [u|e|code]];
    cbn [app]; now rewrite ?app_nil_r.
Qed.

(** X12: for a name that does not parse, the single-preset path prints the
    parser's error, exits with status 1 and leaves the script directory as
    it was. *)
Theorem single_preset_unparsable (preset_name : string) (w : world) :
  parses preset_name = false ->
  exists ve,
    parse_preset_name preset_name = Raised (ValueError ve) /\
    single_preset io_fault preset_name w =
    (w, [PrintParseError ve; PrintFormatExamples], Exited 1).
Proof.
  intros Hp.
  destruct (generate_preset_outcome preset_name) as [(cfg & doc & H & _)|(ve & H & Hd)].
  - unfold parses in Hp. rewrite H in Hp. discriminate.
  - exists ve. split; [assumption|].
    unfold single_preset, io_bind. now rewrite Hd.
Qed.

(** X13: when the single-preset path returns, it returns the path of the
    preset file; that file now holds the document of [generate_preset], the
    other preset files are as before, and [includes.json] lists it. *)
Theorem single_preset_writes_and_registers (preset_name : string) (w w' : world)
        (out : list line) (path : string) :
  single_preset io_fault preset_name w = (w', out, Returned path) ->
  path = (preset_name ++ ".json")%string /\
  exists doc after,
    generate_preset preset_name = ([], Returned doc) /\
    preset_files w' = (path, doc) :: preset_files w /\
    includes_json w' = Some after /\ In path after.
Proof.
  intros H.
  destruct (generate_preset_outcome preset_name) as [(cfg & doc & _ & Hd)|(ve & _ & Hd)].
  - rewrite (single_preset_run _ _ _ Hd) in H. cbv zeta in H.
    destruct (io_fault w (preset_name ++ ".json")%string); [discriminate|].
    rewrite update_includes_file_run in H.
    match type of H with
    | context [io_fault ?w1 "includes.json"] => destruct (io_fault w1 "includes.json")
    end; [discriminate|].
    cbv zeta in H. cbn [preset_files includes_json] in H.
    match type of H with
    | context [PyStr.mem ?f ?l] => destruct (PyStr.mem f l) eqn:Hmem
    end; injection H as <- <- <-; (split; [reflexivity|]); exists doc.
    + apply mem_In in Hmem. destruct (includes_json w) as [l|] eqn:Hinc; [|contradiction].
      exists l. cbn [preset_files includes_json]. auto.
    + eexists. cbn [preset_files includes_json].
      repeat split; try reflexivity; try assumption.
      apply in_or_app. right. simpl. auto.
  - unfold single_preset, io_bind in H. rewrite Hd in H. discriminate.
Qed.

(** X14: when the single-preset path raises, either nothing was written,
    or the preset file was written and [includes.json] was not updated: the
    new file is then left unregistered. *)
Theorem single_preset_raises_partial (preset_name : string) (w w' : world)
        (out : list line) (e : exn) :
  single_preset io_fault preset_name w = (w', out, Raised e) ->
  let output_file := (preset_name ++ ".json")%string in
  (w' = w /\ out = [] /\ io_fault w output_file = Some e) \/
  (exists doc,
      generate_preset preset_name = ([], Returned doc) /\
      preset_files w' = (output_file, doc) :: preset_files w /\
      includes_json w' = includes_json w /\
      out = [PrintGeneratedFile output_file] /\
      io_fault w' "includes.json" = Some e).
Proof.
  intros H output_file.
  destruct (generate_preset_outcome preset_name) as [(cfg & doc & _ & Hd)|(ve & _ & Hd)].
  - rewrite (single_preset_run _ _ _ Hd) in H. cbv zeta in H. fold output_file in H.
    destruct (io_fault w output_file) as [e0|] eqn:Hf.
    { injection H as <- <- <-. left. auto. }
    rewrite update_includes_file_run in H.
    match type of H with
    | context [io_fault ?w1 "includes.json"] =>
        destruct (io_fault w1 "includes.json") as [e1|] eqn:Hf1
    end.
    + injection H as <- <- <-. right. exists doc. repeat split; auto.
    + cbv zeta in H.
      match type of H with
      | context [PyStr.mem ?f ?l] => destruct (PyStr.mem f l)
      end; discriminate.
  - unfold single_preset, io_bind in H. rewrite Hd in H. discriminate.
Qed.

End SinglePresetProofs.

Lemma single_preset_unparsable_witness :
  exists ve, single_preset no_fault "win-gcc-st" empty_world =
             (empty_world, [PrintParseError ve; PrintFormatExamples], Exited 1).
Proof.
  destruct (single_preset_unparsable no_fault "win-gcc-st" empty_world eq_refl)
    as (ve & _ & H).
  exists ve. exact H.
Defined.

Lemma single_preset_writes_and_registers_witness :
  exists w' out,
    single_preset no_fault "linux-gcc-st" empty_world =
    (w', out, Returned "linux-gcc-st.json") /\
    includes_json w' = Some ["linux-gcc-st.json"].
Proof.
  do 2 eexists. split; [reflexivity|].
  destruct (single_preset_writes_and_registers no_fault "linux-gcc-st" empty_world
              _ _ _ eq_refl) as (_ & doc & after & _ & _ & Hafter & _).
  reflexivity.
Defined.

Lemma single_preset_raises_partial_witness :
  exists w' out,
    single_preset includes_fault "linux-gcc-st" empty_world =
    (w', out, Raised (OSError "Permission denied")) /\
    List.length (preset_files w') = 1%nat /\ includes_json w' = None.
Proof.
  do 2 eexists. split; [reflexivity|].
  destruct (single_preset_raises_partial includes_fault "linux-gcc-st" empty_world
              _ _ _ eq_refl) as [(_ & Hout & _)|(doc & _ & Hfiles & Hinc & _)].
  - discriminate Hout.
  - split; [reflexivity | exact Hinc].
Defined.

(** ** The batch driver: dry runs and counters *)

Section BatchProofs.

Variable io_fault : world -> string -> option exn.
Variable limit : option Z.

(** A dry-run loop writes nothing, prints no error and counts no success. *)
Lemma product_loop_dry (candidates : list candidate) :
  forall c w,
    exists out c',
      product_loop io_fault true limit candidates c w = (w, out, Returned c') /\
      item_errors out = [] /\ successful_presets c' = successful_presets c.
Proof.
  induction candidates as [|cand rest IH]; intros c w; cbn [product_loop].
  - exists [], c. auto.
  - destruct (is_skipped cand).
    { match goal with
      | |- context [product_loop _ _ _ rest ?c1 w] =>
          destruct (IH c1 w) as (out & c' & Hrun & Herr & Hsucc)
      end.
      exists out, c'. auto. }
    destruct (limit_set limit && _).
    + eexists [], _. unfold io_ret. auto.
    + rewrite io_bind_print. cbn [negb].
      match goal with
      | |- context [product_loop _ _ _ rest ?c1 w] =>
          destruct (IH c1 w) as (out & c' & Hrun & Herr & Hsucc)
      end.
      rewrite Hrun. eexists _, c'. split; [reflexivity|].
      rewrite item_errors_app. cbn [item_errors flat_map app]. auto.
Qed.

Lemma platform_loop_dry (ps : list string) :
  forall c w,
    exists out c',
      platform_loop io_fault true limit ps c w = (w, out, Returned c') /\
      item_errors out = [] /\ successful_presets c' = successful_presets c.
Proof.
  induction ps as [|platform rest IH]; intros c w; cbn [platform_loop].
  - exists [], c. auto.
  - destruct (product_loop_dry (candidates_of platform) c w)
      as (out1 & c1 & Hrun1 & Herr1 & Hsucc1).
    unfold io_bind at 1. rewrite Hrun1.
    destruct (limit_set limit && _).
    + eexists _, c1. rewrite io_bind_print. unfold io_ret. split; [reflexivity|].
      rewrite item_errors_app, Herr1. cbn. auto.
    + destruct (IH c1 w) as (out2 & c2 & Hrun2 & Herr2 & Hsucc2).
      rewrite Hrun2. eexists _, c2. split; [reflexivity|].
      rewrite item_errors_app, Herr1, Herr2. split; [reflexivity | congruence].
Qed.

(** X15: a dry run leaves the script directory as it was, counts no
    success and prints no error, and it announces exactly the names a real
    run with the same limit attempts. *)
Theorem dry_run_touches_nothing (w : world) :
  exists out c,
    generate_all_presets io_fault true limit w = (w, out, Returned c) /\
    successful_presets c = 0%Z /\ item_errors out = [] /\
    In PrintDryRun out /\
    generating out =
    generating (snd (fst (generate_all_presets io_fault false limit w))).
Proof.
  destruct (platform_loop_dry platforms
              {| total_presets := 0; successful_presets := 0; skipped_presets := 0 |} w)
    as (out1 & c & Hrun & Herr & Hsucc).
  destruct (generate_all_presets_spec io_fault true limit w)
    as (w1 & outd & cd & Hd & Hgend & _).
  destruct (generate_all_presets_spec io_fault false limit w)
    as (w2 & outr & cr & Hr & Hgenr & _).
  rewrite Hr. cbn [fst snd]. rewrite Hgenr, <- Hgend.
  unfold generate_all_presets in *. unfold io_bind at 1 in Hd. unfold io_bind at 1.
  rewrite Hrun in *. rewrite io_bind_print in *.
  unfold io_bind, print, io_ret in *. cbn [app] in *.
  injection Hd as <- <- <-.
  eexists _, c. split; [reflexivity|]. split; [exact Hsucc|].
  rewrite item_errors_app, Herr. cbn [app item_errors flat_map].
  split; [reflexivity|]. split; [|reflexivity].
  apply in_or_app. right. simpl. auto.
Qed.

End BatchProofs.

Section CountProofs.

Variable io_fault : world -> string -> option exn.
Variable dry_run : bool.
Variable limit : option Z.
Hypothesis no_limit : limit_set limit = false.

(** Without a limit, a loop over candidates whose names parse counts every
    candidate: the skipped ones as skipped, the others in the total. *)
Lemma product_loop_counts (candidates : list candidate) :
  forallb parses (valid_names candidates) = true ->
  forall c w w' out c',
    product_loop io_fault dry_run limit candidates c w = (w', out, Returned c') ->
    total_presets c' = (total_presets c + Z.of_nat (List.length (valid_names candidates)))%Z /\
    skipped_presets c' =
    (skipped_presets c + Z.of_nat (List.length (filter is_skipped candidates)))%Z.
Proof.
  induction candidates as [|cand rest IH]; intros Hall c w w' out c' H;
    cbn [product_loop] in H.
  - injection H as <- <- <-. change (valid_names []) with (@nil string). cbn. lia.
  - cbn [filter]. destruct (is_skipped cand) eqn:Hs.
    + rewrite (valid_names_skipped cand rest Hs) in *.
      apply (IH Hall) in H. cbn [total_presets skipped_presets List.length] in *. lia.
    + rewrite (valid_names_kept cand rest Hs) in *.
      cbn [forallb] in Hall. apply andb_true_iff in Hall as [Hp Hall].
      rewrite no_limit in H. cbn [andb] in H. rewrite io_bind_print in H.
      cbn [total_presets successful_presets skipped_presets] in H.
      destruct dry_run; cbn [negb] in H.
      * match type of H with
        | context [product_loop _ _ _ rest ?c1 w] =>
            destruct (product_loop io_fault true limit rest c1 w) as [[w2 out2] r] eqn:Hrun
        end.
        injection H as <- <- ->. apply (IH Hall) in Hrun.
        cbn [total_presets skipped_presets List.length] in *. lia.
      * match type of H with
        | context [try_except (io_bind _ (fun _ => io_ret ?c_ok))
                              (fun e => io_bind _ (fun _ => io_ret ?c1))] =>
            destruct (try_single_preset io_fault (preset_name_of cand) c_ok c1 w Hp)
              as (w1 & out1 & c2 & Htry & _ & Hcase)
        end.
        unfold io_bind at 1 in H. rewrite Htry in H.
        destruct (product_loop io_fault false limit rest c2 w1) as [[w2 out2] r] eqn:Hrun.
        injection H as <- <- ->. apply (IH Hall) in Hrun.
        destruct Hcase as [[-> _]|[-> _]];
          cbn [total_presets skipped_presets List.length] in *; lia.
Qed.

Lemma skipped_candidates_count :
  List.length (filter is_skipped (candidates_of "linux")) = 32%nat /\
  List.length (filter is_skipped (candidates_of "win")) = 16%nat.
Proof. split; reflexivity. Qed.

(** X16: without a limit ([None] or 0) the driver counts all 192
    combinations, whatever fails and whether or not the run is dry: 48 are
    skipped and 144 are in the total, the summary line says so, and in a
    real run the successes and the printed errors add up to 144. *)
Theorem batch_counts_without_limit (w : world) :
  exists w' out c,
    generate_all_presets io_fault dry_run limit w = (w', out, Returned c) /\
    total_presets c = 144%Z /\ skipped_presets c = 48%Z /\
    In (PrintSummary (successful_presets c) 144 48) out /\
    (dry_run = false ->
     (successful_presets c + Z.of_nat (List.length (item_errors out)) = 144)%Z).
Proof.
  destruct platform_names_parse as [Hlin Hwin].
  destruct (generate_all_presets_spec io_fault dry_run limit w)
    as (w' & out & c & Hrun & Hgen & Hsucc).
  exists w', out, c. split; [exact Hrun|].
  unfold budget in Hgen. rewrite no_limit in Hgen. cbn [take] in Hgen.
  unfold generate_all_presets, platforms in Hrun. cbn [platform_loop] in Hrun.
  rewrite no_limit in Hrun. cbn [andb] in Hrun.
  set (lin := candidates_of "linux") in *. set (win := candidates_of "win") in *.
  unfold io_bind at 1 2 in Hrun.
  match type of Hrun with
  | context [product_loop io_fault dry_run limit lin ?c0 w] =>
      destruct (product_loop io_fault dry_run limit lin c0 w)
        as [[w1 out1] [c1| |]] eqn:H1; try discriminate Hrun
  end.
  unfold io_bind at 1 in Hrun.
  destruct (product_loop io_fault dry_run limit win c1 w1)
    as [[w2 out2] [c2| |]] eqn:H2; try discriminate Hrun.
  apply (product_loop_counts _ Hlin) in H1. apply (product_loop_counts _ Hwin) in H2.
  unfold lin, win in *. clear lin win.
  rewrite linux_names_length in H1. rewrite win_names_length in H2.
  destruct skipped_candidates_count as [Hs1 Hs2]. rewrite Hs1 in H1. rewrite Hs2 in H2.
  cbn [total_presets skipped_presets] in H1.
  unfold io_ret in Hrun. cbn [app] in Hrun. rewrite io_bind_print in Hrun.
  assert (Hc : c = c2 /\ In (PrintSummary (successful_presets c2) (total_presets c2)
                                          (skipped_presets c2)) out).
  { unfold io_bind, print, io_ret in Hrun. destruct dry_run; cbn [app] in Hrun;
      injection Hrun as <- <- <-; (split; [reflexivity|]);
      apply in_or_app; right; simpl; auto. }
  destruct Hc as [-> Hin].
  assert (Ht : total_presets c2 = 144%Z) by lia.
  assert (Hs : skipped_presets c2 = 48%Z) by lia.
  rewrite Ht, Hs in Hin. repeat split; try assumption.
  intros Hdry. rewrite Hdry in Hsucc. rewrite Hsucc, Hgen. reflexivity.
Qed.

End CountProofs.

Lemma batch_counts_without_limit_witness :
  exists w' out c,
    generate_all_presets one_fault false (Some 0%Z) empty_world = (w', out, Returned c) /\
    total_presets c = 144%Z /\ skipped_presets c = 48%Z.
Proof.
  destruct (batch_counts_without_limit one_fault false (Some 0%Z) eq_refl empty_world)
    as (w' & out & c & Hrun & Ht & Hs & _).
  exists w', out, c. auto.
Defined.

(** ** The command line *)

(** X17: the exit status of [main].  In batch mode [main] returns, whatever
    fails.  Otherwise it leaves through [sys.exit(1)] exactly when the name
    is missing, empty or does not parse, and then the script directory is
    as it was; a missing or empty name gets the option catalogue. *)
Theorem main_exit_status (io_fault : world -> string -> option exn)
        (args : arguments) (w : world) :
  exists w' out r,
    main io_fault args w = (w', out, r) /\
    (arg_generate_all args = true -> r = Returned tt) /\
    (arg_generate_all args = false ->
     match arg_preset_name args with
     | Some preset_name =>
         if PyStr.truthy preset_name then
           if parses preset_name then forall code, r <> Exited code
           else r = Exited 1 /\ w' = w
         else r = Exited 1 /\ w' = w /\ out = [PrintBanner; PrintAvailableOptions]
     | None => r = Exited 1 /\ w' = w /\ out = [PrintBanner; PrintAvailableOptions]
     end).
Proof.
  unfold main. destruct (arg_generate_all args).
  - destruct (generate_all_presets_spec io_fault (arg_dry_run args) (arg_limit args) w)
      as (w' & out & c & Hrun & _).
    rewrite Hrun. do 3 eexists. split; [reflexivity|]. split; [reflexivity | discriminate].
  - destruct (arg_preset_name args) as [preset_name|].
    2:{ do 3 eexists. split; [reflexivity|]. split; [discriminate | auto]. }
    destruct (PyStr.truthy preset_name).
    2:{ do 3 eexists. split; [reflexivity|]. split; [discriminate | auto]. }
    destruct (parses preset_name) eqn:Hp.
    + destruct (single_preset_parsed io_fault preset_name w Hp)
        as (w' & out & _ & _ & [Hr|[e Hr]]); rewrite Hr;
        do 3 eexists; (split; [reflexivity|]); (split; [discriminate|]);
        intros _ code; discriminate.
    + destruct (generate_preset_outcome preset_name) as [(cfg & doc & H & _)|(ve & _ & Hd)].
      { unfold parses in Hp. rewrite H in Hp. discriminate. }
      unfold single_preset, io_bind. rewrite Hd.
      do 3 eexists. split; [reflexivity|]. split; [discriminate | auto].
Qed.

(** * Data validation *)

Section CheckConvertDataProofs.

Import InternalUtils.

Variable ndarray : Type.
Variable array_like : Type.
Variable array_dtype : ndarray -> np_dtype.
Variable astype : ndarray -> np_dtype -> exception_class + ndarray.
Variable len : array_like -> exception_class + nat.
Variable first_dtype : array_like -> exception_class + option np_dtype.
Variable asarray : array_like -> np_dtype -> exception_class + ndarray.

(** NumPy's part: a conversion that succeeds gives an array of the element
    type asked for. *)
Hypothesis astype_dtype :
  forall X d Y, astype X d = inr Y -> array_dtype Y = d.
Hypothesis asarray_dtype :
  forall X d Y, asarray X d = inr Y -> array_dtype Y = d.

(** The checks on [dtype] and [force_float]: when they pass, the element
    type asked for is an allowed one. *)
Lemma checked_dtype_allowed (dtype : dtype_argument) (force_float : bool) :
  (force_float && name_in dtype ["float32"; "float64"] = true ->
   dtype_in (np_dtype_of dtype) [float32; float64] = true) /\
  (name_in dtype ["float32"; "float64"; "int32"; "int64"] = true ->
   dtype_in (np_dtype_of dtype) [float32; float64; int32; int64] = true).
Proof.
  destruct dtype as [name|]; cbn [name_in np_dtype_of]; [|split; intros H;
    [rewrite andb_false_r in H|]; discriminate].
  unfold PyStr.mem. cbn [existsb]. split; intros H.
  - apply andb_true_iff in H as [_ H].
    destruct (name =? "float32"); [reflexivity|].
    destruct (name =? "float64"); [reflexivity | discriminate].
  - destruct (name =? "float32"); [reflexivity|].
    destruct (name =? "float64"); [reflexivity|].
    destruct (name =? "int32"); [reflexivity|].
    destruct (name =? "int64"); [reflexivity | discriminate].
Qed.

Lemma np_dtype_eqb_eq (a b : np_dtype) : np_dtype_eqb a b = true -> a = b.
Proof.
  destruct a, b; cbn; try discriminate; try reflexivity.
  intros H. apply String.eqb_eq in H. now subst.
Qed.

Lemma np_dtype_eqb_refl (a : np_dtype) : np_dtype_eqb a a = true.
Proof. destruct a; cbn; try reflexivity. apply String.eqb_refl. Qed.

(** The list of allowed element types a call settles on. *)
Lemma allowed_dtypes_of_call (dtype : dtype_argument) (force_float : bool)
      (allowed_dtypes : list np_dtype) :
  (if force_float && name_in dtype ["float32"; "float64"] then Some [float32; float64]
   else if negb force_float && name_in dtype ["float32"; "float64"; "int32"; "int64"]
        then Some [float32; float64; int32; int64]
   else None) = Some allowed_dtypes ->
  (forall d, dtype_in d allowed_dtypes = allowed force_float d) /\
  dtype_in (np_dtype_of dtype) allowed_dtypes = true.
Proof.
  destruct (checked_dtype_allowed dtype force_float) as [Hf Hi].
  destruct force_float; cbn [andb negb allowed] in *.
  - destruct (name_in dtype ["float32"; "float64"]); [|discriminate].
    intros E. injection E as <-. split; [reflexivity | now apply Hf].
  - destruct (name_in dtype ["float32"; "float64"; "int32"; "int64"]); [|discriminate].
    intros E. injection E as <-. split; [reflexivity | now apply Hi].
Qed.

(** What a call that returns went through. *)
Lemma check_convert_data_returns (X : input ndarray array_like) (dtype : dtype_argument)
      (force_float : bool) (Y : ndarray) (warnings : list warning) :
  check_convert_data ndarray array_like array_dtype astype len first_dtype asarray
                     X dtype force_float = inr (Y, warnings) ->
  allowed force_float (np_dtype_of dtype) = true /\
  allowed force_float (array_dtype Y) = true /\
  ((warnings = [] /\ forall X0, X = Array ndarray array_like X0 -> Y = X0) \/
   (warnings = [CastWarning (np_dtype_of dtype)] /\ array_dtype Y = np_dtype_of dtype)).
Proof.
  unfold check_convert_data. intros H.
  destruct (if force_float && name_in dtype ["float32"; "float64"] then _ else _)
    as [allowed_dtypes|] eqn:Hchecked; [|discriminate].
  destruct (allowed_dtypes_of_call _ _ _ Hchecked) as [Hall Hd].
  rewrite <- !Hall. split; [exact Hd|].
  destruct X as [X|X].
  - destruct (dtype_in (array_dtype X) allowed_dtypes) eqn:Hin; cbn [negb] in H.
    + injection H as <- <-. split; [exact Hin|]. left. split; [reflexivity|].
      intros X0 E. now injection E.
    + destruct (astype X (np_dtype_of dtype)) as [e|Y'] eqn:Has; [discriminate|].
      injection H as <- <-. apply astype_dtype in Has.
      rewrite Has. split; [exact Hd|]. right. auto.
  - unfold convert_array_like in H.
    assert (Hcast :
              match
                match asarray X (np_dtype_of dtype) with
                | inl e => inl e
                | inr Y0 => inr (Y0, [CastWarning (np_dtype_of dtype)])
                end
              with
              | inl AttributeError => inl (CannotConvert (np_dtype_of dtype))
              | inl e => inl (PassedOn e)
              | inr r => inr r
              end = inr (Y, warnings) ->
              dtype_in (array_dtype Y) allowed_dtypes = true /\
              (warnings = [] /\
               (forall X0, Other ndarray array_like X = Array _ _ X0 -> Y = X0) \/
               warnings = [CastWarning (np_dtype_of dtype)] /\
               array_dtype Y = np_dtype_of dtype)).
    { destruct (asarray X (np_dtype_of dtype)) as [e|Y0] eqn:Has.
      - destruct e; discriminate.
      - intros E. injection E as <- <-. apply asarray_dtype in Has. rewrite Has. auto. }
    destruct (len X) as [e|n]; [destruct e; discriminate|].
    destruct (0 <? n)%nat; [|now apply Hcast].
    destruct (first_dtype X) as [e|[d|]]; [destruct e; discriminate| |now apply Hcast].
    destruct (dtype_in d allowed_dtypes) eqn:Hin; [|now apply Hcast].
    destruct (asarray X d) as [e|Y0] eqn:Has; [destruct e; discriminate|].
    injection H as <- <-. apply asarray_dtype in Has. rewrite Has.
    split; [exact Hin|]. left. split; [reflexivity|]. discriminate.
Qed.



End CheckConvertDataProofs.

Lemma table_astype_dtype (X : InternalUtils.table) (d : InternalUtils.np_dtype)
      (Y : InternalUtils.table) :
  InternalUtils.table_astype X d = inr Y -> fst Y = d.
Proof. intros E. injection E as <-. reflexivity. Qed.

Lemma rows_asarray_dtype (X : list (list Z)) (d : InternalUtils.np_dtype)
      (Y : InternalUtils.table) :
  InternalUtils.rows_asarray X d = inr Y -> fst Y = d.
Proof. intros E. injection E as <-. reflexivity. Qed.



(** ** Every name that parses comes from a selection *)

Lemma dict_get_not_key (d : dict) (c : string) :
  ~ In c (dict_keys d) -> dict_get d c = None.
Proof.
  intros H. destruct (dict_get d c) eqn:E; [|reflexivity].
  exfalso. apply H. apply dict_get_in_keys. congruence.
Qed.

Lemma selection_of_keys (d : dict) (c : string) :
  In c (dict_keys (selection_of d)) -> In c (dict_keys d).
Proof.
  unfold selection_of, dict_keys. intros H. apply in_map_iff in H as (kv & <- & Hin).
  apply filter_In in Hin as [Hin _]. now apply in_map.
Qed.

Lemma selection_of_get (d : dict) (c : string) :
  NoDup (dict_keys d) ->
  dict_get (selection_of d) c =
  match dict_get d c with
  | Some v => if v =? "empty" then None else Some v
  | None => None
  end.
Proof.
  induction d as [|[k v] d IH]; intros Hnd; [reflexivity|].
  inversion Hnd as [|? ? Hnin Hnd']; subst.
  unfold selection_of in *. cbn [filter snd dict_get].
  destruct (v =? "empty") eqn:Ev; cbn [negb dict_get].
  - destruct (String.eqb_spec k c) as [->|Hne]; [|now apply IH].
    rewrite Ev. apply dict_get_not_key. intros H. now apply selection_of_keys in H.
  - destruct (k =? c); [now rewrite Ev | now apply IH].
Qed.

(** The dictionary of the token loop is the configuration of the selection
    it describes. *)
Lemma selected_config_of_result (r : dict) :
  dict_keys r = categories -> selected_config (selection_of r) = r.
Proof.
  intros Hk. assert (Hnd : NoDup (dict_keys r)) by (rewrite Hk; apply categories_nodup).
  apply dict_ext.
  - unfold selected_config. now rewrite dict_keys_map.
  - unfold selected_config. rewrite dict_keys_map. apply categories_nodup.
  - intros k Hin. unfold selected_config in Hin. rewrite dict_keys_map in Hin.
    rewrite (selected_config_get _ _ Hin), (selection_of_get r k Hnd).
    destruct (category_get r k Hk Hin) as [v Hv]. rewrite Hv.
    destruct (v =? "empty") eqn:Ev; [|reflexivity].
    apply String.eqb_eq in Ev. now subst.
Qed.

Lemma selected_tokens_of_result (r : dict) :
  dict_keys r = categories -> selected_tokens (selection_of r) = chosen_tokens r.
Proof.
  intros Hk. assert (Hnd : NoDup (dict_keys r)) by (rewrite Hk; apply categories_nodup).
  unfold selected_tokens, chosen_tokens. apply flat_map_ext_in. intros c Hc.
  rewrite (selection_of_get r c Hnd). unfold value_of.
  destruct (category_get r c Hk Hc) as [v Hv]. rewrite Hv.
  now destruct (v =? "empty").
Qed.

(** X20: every name that parses is a rearrangement of the name of a
    well-formed selection: its tokens are, each once, legal tokens of
    different categories that respect the two exclusivity rules, and the
    configuration returned is the one that selection resolves to. *)
Theorem parsed_name_is_a_selection (preset_name : string) (cfg : dict) :
  parse_preset_name preset_name = Returned cfg ->
  exists sel,
    well_formed_selection sel = true /\
    Permutation (PyStr.split "-" preset_name) (selected_tokens sel) /\
    cfg = resolved_config sel.
Proof.
  intros H. pose proof (parse_preset_name_inv _ _ H) as (r & p & Hr & Hp & Hcfg).
  pose proof (parse_parts_keys _ _ _ Hr) as Hk. rewrite initial_result_keys in Hk.
  pose proof (parse_parts_well_formed _ _ _ initial_result_well_formed Hr) as Hwf.
  pose proof (parse_parts_chosen_tokens _ _ _ Hr) as Hperm.
  rewrite chosen_tokens_initial, app_nil_r in Hperm.
  assert (Hnd : NoDup (dict_keys r)) by (rewrite Hk; apply categories_nodup).
  destruct (parse_preset_name_checks _ _ H) as [Hwin Hstatic].
  assert (Hsame : forall c, c <> "generator" -> dict_get cfg c = dict_get r c).
  { intros c Hc. subst cfg. destruct (p =? "win"); [|reflexivity].
    apply dict_get_set_other. now apply not_eq_sym. }
  rewrite !Hsame in Hwin, Hstatic by discriminate.
  exists (selection_of r). split; [|split].
  - unfold well_formed_selection. rewrite (selected_tokens_of_result r Hk).
    apply andb_true_iff. split; [apply andb_true_iff; split|].
    + unfold legal_selection. apply forallb_forall. intros c Hc.
      rewrite (selection_of_get r c Hnd).
      destruct (well_formed_config_get r c Hwf Hc) as (v & Hv & Hlegal). rewrite Hv.
      destruct (v =? "empty") eqn:Ev; [reflexivity|].
      destruct Hlegal as [->|Hlegal]; [discriminate Ev | now apply mem_In].
    + unfold respects_exclusivity. rewrite !(selection_of_get r _ Hnd).
      apply andb_true_iff. split.
      * destruct (dict_get r "platform") as [pl|]; [|reflexivity].
        destruct (pl =? "empty"); [reflexivity|].
        destruct (String.eqb_spec pl "win") as [->|Hne].
        -- rewrite (Hwin eq_refl). reflexivity.
        -- now destruct (dict_get r "compiler") as [cc|]; [destruct (cc =? "empty")|].
      * destruct (dict_get r "lib_type") as [l|]; [|reflexivity].
        destruct (l =? "empty"); [reflexivity|].
        destruct (String.eqb_spec l "static") as [->|Hne].
        -- destruct (well_formed_config_get r "build_python" Hwf)
             as (b & Hb & Hlegal); [unfold categories; simpl; auto 10|].
           rewrite Hb in *. destruct Hlegal as [->|[<-|[]]]; [reflexivity|].
           now contradiction (Hstatic eq_refl).
        -- now destruct (dict_get r "build_python") as [b|]; [destruct (b =? "empty")|].
    + destruct (chosen_tokens r) as [|t ts] eqn:E; [|reflexivity].
      apply Permutation_sym, Permutation_nil in Hperm. now apply split_not_nil in Hperm.
  - now rewrite (selected_tokens_of_result r Hk).
  - unfold resolved_config. rewrite (selected_config_of_result r Hk).
    unfold value_of. now rewrite Hp.
Qed.

Lemma parsed_name_is_a_selection_witness :
  exists sel,
    well_formed_selection sel = true /\
    Permutation ["static"; "linux"; "gcc"] (selected_tokens sel).
Proof.
  destruct (parsed_name_is_a_selection "static-linux-gcc" _ eq_refl)
    as (sel & Hwf & Hperm & _).
  exists sel. split; [exact Hwf | exact Hperm].
Defined.

(** ** The script directory only grows *)

Lemma extends_refl (w : world) : extends w w.
Proof.
  repeat split; [exists [] | exists [] |]; auto. now rewrite app_nil_r.
Qed.

Lemma extends_trans (w1 w2 w3 : world) : extends w1 w2 -> extends w2 w3 -> extends w1 w3.
Proof.
  intros ((n1 & Hf1) & (a1 & Hi1) & Hn1) ((n2 & Hf2) & (a2 & Hi2) & Hn2).
  repeat split.
  - exists (n2 ++ n1). now rewrite Hf2, Hf1, app_assoc.
  - exists (a1 ++ a2). now rewrite Hi2, Hi1, app_assoc.
  - auto.
Qed.

Section ExtendsProofs.

Variable io_fault : world -> string -> option exn.

Lemma update_includes_file_extends (preset_name : string) (w w' : world)
      (out : list line) (r : outcome unit) :
  update_includes_file io_fault preset_name w = (w', out, r) -> extends w w'.
Proof.
  rewrite update_includes_file_run.
  destruct (io_fault w "includes.json").
  { intros E. injection E as <- _ _. apply extends_refl. }
  cbv zeta. fold (includes_of w).
  destruct (PyStr.mem (preset_name ++ ".json") (includes_of w)) eqn:Hmem;
    intros E; injection E as <- _ _; [apply extends_refl|].
  repeat split; cbn [preset_files includes_json includes_of].
  - now exists [].
  - eauto.
  - intros Hnd. apply NoDup_app; [assumption | repeat constructor; simpl; tauto |].
    intros x Hx [<-|[]]. apply mem_In in Hx. congruence.
Qed.

(** The single-preset path only adds to the script directory, however it
    ends. *)
Lemma single_preset_extends (preset_name : string) (w w' : world) (out : list line)
      (r : outcome string) :
  single_preset io_fault preset_name w = (w', out, r) -> extends w w'.
Proof.
  destruct (generate_preset_outcome preset_name) as [(cfg & doc & _ & Hd)|(ve & _ & Hd)].
  - rewrite (single_preset_run io_fault _ _ _ Hd). cbv zeta.
    destruct (io_fault w (preset_name ++ ".json")%string).
    { intros E. injection E as <- _ _. apply extends_refl. }
    destruct (update_includes_file io_fault preset_name _) as [[w2 out2] r2] eqn:Hu.
    apply update_includes_file_extends in Hu.
    intros E. assert (w' = w2) by (destruct r2; now injection E). subst w2.
    eapply extends_trans; [|exact Hu].
    repeat split; cbn [preset_files includes_of includes_json].
    + eexists [_]. reflexivity.
    + exists []. now rewrite app_nil_r.
    + auto.
  - unfold single_preset, io_bind. rewrite Hd. intros E. injection E as <- _ _.
    apply extends_refl.
Qed.

Variable dry_run : bool.
Variable limit : option Z.

Lemma product_loop_extends (candidates : list candidate) :
  forall c w w' out r,
    product_loop io_fault dry_run limit candidates c w = (w', out, r) -> extends w w'.
Proof.
  induction candidates as [|cand rest IH]; intros c w w' out r H; cbn [product_loop] in H.
  - injection H as <- _ _. apply extends_refl.
  - destruct (is_skipped cand); [now apply IH in H|].
    destruct (limit_set limit && _).
    { injection H as <- _ _. apply extends_refl. }
    rewrite io_bind_print in H. destruct dry_run; cbn [negb] in H.
    + match type of H with
      | context [product_loop _ _ _ rest ?c1 w] =>
          destruct (product_loop io_fault true limit rest c1 w) as [[w2 out2] r2] eqn:Hrun
      end.
      injection H as <- _ _. now apply IH in Hrun.
    + unfold io_bind at 1, try_except, io_bind at 1 in H.
      destruct (single_preset io_fault (preset_name_of cand) w) as [[w1 out1] r1] eqn:Hs.
      apply single_preset_extends in Hs.
      destruct r1 as [path|e|code]; unfold io_ret, io_bind, print in H; cbn [app] in H.
      * match type of H with
        | context [product_loop _ _ _ rest ?c1 w1] =>
            destruct (product_loop io_fault false limit rest c1 w1)
              as [[w2 out2] r2] eqn:Hrun
        end.
        injection H as <- _ _. apply IH in Hrun. eapply extends_trans; eassumption.
      * match type of H with
        | context [product_loop _ _ _ rest ?c1 w1] =>
            destruct (product_loop io_fault false limit rest c1 w1)
              as [[w2 out2] r2] eqn:Hrun
        end.
        injection H as <- _ _. apply IH in Hrun. eapply extends_trans; eassumption.
      * injection H as <- _ _. exact Hs.
Qed.

Lemma platform_loop_extends (ps : list string) :
  forall c w w' out r,
    platform_loop io_fault dry_run limit ps c w = (w', out, r) -> extends w w'.
Proof.
  induction ps as [|platform rest IH]; intros c w w' out r H; cbn [platform_loop] in H.
  - injection H as <- _ _. apply extends_refl.
  - unfold io_bind at 1 in H.
    destruct (product_loop io_fault dry_run limit (candidates_of platform) c w)
      as [[w1 out1] [c1|e|code]] eqn:Hrun; apply product_loop_extends in Hrun;
      try (injection H as <- _ _; exact Hrun).
    destruct (limit_set limit && _).
    + rewrite io_bind_print in H. unfold io_ret in H. injection H as <- _ _. exact Hrun.
    + destruct (platform_loop io_fault dry_run limit rest c1 w1) as [[w2 out2] r2] eqn:Hp.
      injection H as <- _ _. apply IH in Hp. eapply extends_trans; eassumption.
Qed.


End ExtendsProofs.
